(** * Context bar of the whiteboard: which actions a selection offers

    A shallow embedding of
    [tldraw/apps/tldraw-logseq/src/components/ContextBar/contextBarActionFactory.tsx]:
    the static tables, [filterShapeByAction], the values the action widgets
    display, the calls their change handlers make on the canvas, and
    [getContextBarActionsForTypes]. *)

From Stdlib Require Import List String ZArith Bool Arith Lia Permutation Sorted.
Import ListNotations.
Local Open Scope string_scope.
Local Open Scope list_scope.

Set Implicit Arguments.

(** ** Arrays and sets of the host language *)

Module Js.

Section Arrays.
Variable A : Type.
Variable eqb : A -> A -> bool.

(** [xs.includes(x)] *)
Definition includes (xs : list A) (x : A) : bool := existsb (eqb x) xs.

(** [xs.indexOf(x)]: position of the first occurrence, [-1] when absent. *)
Fixpoint indexOf (xs : list A) (x : A) : Z :=
  match xs with
  | [] => (-1)%Z
  | y :: ys =>
      if eqb y x then 0%Z
      else let i := indexOf ys x in
           if (i <? 0)%Z then (-1)%Z else (i + 1)%Z
  end.

(** [xs.every(p)] *)
Definition every (p : A -> bool) (xs : list A) : bool := forallb p xs.

(** [xs.sort(cmp)]: the sort is stable; [cmp a b < 0] puts [a] first. *)
Fixpoint sort_insert (cmp : A -> A -> Z) (x : A) (xs : list A) : list A :=
  match xs with
  | [] => [x]
  | y :: ys =>
      if (cmp x y <=? 0)%Z then x :: y :: ys
      else y :: sort_insert cmp x ys
  end.

Fixpoint sort (cmp : A -> A -> Z) (xs : list A) : list A :=
  match xs with
  | [] => []
  | x :: xs' => sort_insert cmp x (sort cmp xs')
  end.
End Arrays.

(** A [Set] keeps its elements in insertion order, each once. *)
Module JSet.
Section Sets.
Variable A : Type.
Variable eqb : A -> A -> bool.

Definition t := list A.

Definition has (s : t) (x : A) : bool := existsb (eqb x) s.

Definition add (s : t) (x : A) : t := if has s x then s else s ++ [x].

(** [new Set(xs)] *)
Definition of_array (xs : list A) : t := fold_left add xs [].

(** [s.delete(x)] *)
Definition delete (s : t) (x : A) : t := filter (fun y => negb (eqb x y)) s.

Definition size (s : t) : nat := List.length s.

(** [s.forEach(f)] where [f] may delete from [s]: every element present
    when the walk reaches it is visited; elements are visited in
    insertion order. *)
Fixpoint forEach_from (f : t -> A -> t) (todo : list A) (s : t) : t :=
  match todo with
  | [] => s
  | x :: todo' =>
      if has s x then forEach_from f todo' (f s x)
      else forEach_from f todo' s
  end.

Definition forEach (f : t -> A -> t) (s : t) : t := forEach_from f s s.

(** [Array.from(s)] *)
Definition to_array (s : t) : list A := s.
End Sets.
End JSet.

End Js.

(** ** The static tables *)

(** The members of [contextBarActionTypes]. *)
Inductive ContextBarActionType : Type :=
| Edit
| AutoResizing
| Swatch
| NoFill
| StrokeType
| ScaleLevel
| TextStyle
| YoutubeLink
| LogseqPortalViewMode
| ArrowMode
| OpenPage.

Definition action_eqb (a b : ContextBarActionType) : bool :=
  match a, b with
  | Edit, Edit | AutoResizing, AutoResizing | Swatch, Swatch
  | NoFill, NoFill | StrokeType, StrokeType | ScaleLevel, ScaleLevel
  | TextStyle, TextStyle | YoutubeLink, YoutubeLink
  | LogseqPortalViewMode, LogseqPortalViewMode
  | ArrowMode, ArrowMode | OpenPage, OpenPage => true
  | _, _ => false
  end.

(** Order matters. *)
Definition contextBarActionTypes : list ContextBarActionType :=
  [ Edit; AutoResizing; Swatch; NoFill; StrokeType; ScaleLevel; TextStyle;
    YoutubeLink; LogseqPortalViewMode; ArrowMode; OpenPage ].

Definition singleShapeActions : list ContextBarActionType :=
  [ Edit; YoutubeLink; OpenPage ].

(** [Shape['props']['type']]: the tag of a shape.  The union of tags is
    declared outside this file, so a tag is any string. *)
Definition ShapeType : Type := string.

(** [shapeMapping], a partial record: the entries in the order they are
    written. *)
Definition shapeMapping : list (ShapeType * list ContextBarActionType) :=
  [ ("logseq-portal", [Edit; LogseqPortalViewMode; ScaleLevel; OpenPage; AutoResizing]);
    ("youtube", [YoutubeLink]);
    ("box", [Swatch; NoFill; StrokeType]);
    ("ellipse", [Swatch; NoFill; StrokeType]);
    ("polygon", [Swatch; NoFill; StrokeType]);
    ("line", [Edit; Swatch; ArrowMode]);
    ("pencil", [Swatch]);
    ("highlighter", [Swatch]);
    ("text", [Edit; Swatch; ScaleLevel; AutoResizing; TextStyle]);
    ("html", [ScaleLevel; AutoResizing]) ].

(** [shapeMapping[type]]: [None] stands for [undefined].  Only the entries
    written in the table are found: no shape class has a tag that names a
    member every object inherits. *)
Fixpoint lookup (m : list (ShapeType * list ContextBarActionType)) (k : ShapeType)
  : option (list ContextBarActionType) :=
  match m with
  | [] => None
  | (k', v) :: m' => if String.eqb k' k then Some v else lookup m' k
  end.

(** [noStrokeShapes]: the types with a swatch and no fill toggle. *)
Definition noStrokeShapes : list ShapeType :=
  map fst
    (filter (fun kv => negb (Js.includes action_eqb (snd kv) NoFill)
                       && Js.includes action_eqb (snd kv) Swatch)
       shapeMapping).

(** ** Shapes *)

(** [Decoration], imported from [@tldraw/core]; the widgets compare with
    [Decoration.Arrow] only. *)
Inductive Decoration : Type := Arrow.

(** Modelled from the spec: the shape classes live in [~lib], outside this
    file.  A shape is an externally owned object with a type tag and a
    property bag; [id] tells two objects apart and the other fields are the
    ones the widgets read. *)
Record Shape : Type := mkShape {
  id : string;
  type : ShapeType;
  isAutoResizing : bool;
  collapsed : bool;
  scaleLevel : string;
  noFill : bool;
  fill : string;
  stroke : string;
  strokeType : string;
  decorations_start : option Decoration;
  decorations_end : option Decoration;
  fontWeight : Z;
  italic : bool
}.

(** A shape of the given type with default properties. *)
Definition shapeOfType (t : ShapeType) : Shape :=
  mkShape EmptyString t false false "md" false EmptyString EmptyString "line" None None 400%Z false.

(** ** filterShapeByAction *)

(** [shapeMapping[shape.props.type]?.includes(type)]: [undefined] is falsy. *)
Definition supportsAction (s : Shape) (a : ContextBarActionType) : bool :=
  match lookup shapeMapping (type s) with
  | Some actions => Js.includes action_eqb actions a
  | None => false
  end.

Definition filterShapeByAction (shapes : list Shape) (a : ContextBarActionType)
  : list Shape :=
  filter (fun shape => supportsAction shape a) shapes.

(** ** The resolver *)

(** The widget components registered in [contextBarActionMapping]. *)
Inductive Component : Type :=
| EditAction
| AutoResizingAction
| LogseqPortalViewModeAction
| ScaleLevelAction
| OpenPageAction
| YoutubeLinkAction
| NoFillAction
| SwatchAction
| StrokeTypeAction
| ArrowModeAction
| TextStyleAction.

(** [contextBarActionMapping] after the eleven [set] calls, in call order. *)
Definition contextBarActionMapping : list (ContextBarActionType * Component) :=
  [ (Edit, EditAction);
    (AutoResizing, AutoResizingAction);
    (LogseqPortalViewMode, LogseqPortalViewModeAction);
    (ScaleLevel, ScaleLevelAction);
    (OpenPage, OpenPageAction);
    (YoutubeLink, YoutubeLinkAction);
    (NoFill, NoFillAction);
    (Swatch, SwatchAction);
    (StrokeType, StrokeTypeAction);
    (ArrowMode, ArrowModeAction);
    (TextStyle, TextStyleAction) ].

(** [contextBarActionMapping.get(action)] *)
Fixpoint mapping_get (m : list (ContextBarActionType * Component))
  (a : ContextBarActionType) : option Component :=
  match m with
  | [] => None
  | (k, c) :: m' => if action_eqb k a then Some c else mapping_get m' a
  end.

(** [isNonNullable]: the entries of the table are action names, none of them
    [null] or [undefined]. *)
Definition isNonNullable (a : ContextBarActionType) : bool := true.

(** [(shapeMapping[type] ?? []).filter(isNonNullable)] *)
Definition getContextBarActionTypes (t : ShapeType) : list ContextBarActionType :=
  filter isNonNullable
    (match lookup shapeMapping t with
     | Some actions => actions
     | None => []
     end).

Abbreviation ActionSet := (Js.JSet.t ContextBarActionType).

(** One round of the loop body: drop from [actionTypes] what the other
    shape's type does not offer. *)
Definition intersectWith (otherActionTypes : list ContextBarActionType)
  (actionTypes : ActionSet) : ActionSet :=
  Js.JSet.forEach action_eqb
    (fun s action =>
       if negb (Js.includes action_eqb otherActionTypes action)
       then Js.JSet.delete action_eqb s action
       else s)
    actionTypes.

(** [for (let i = 1; i < types.length && actionTypes.size > 0; i++)], with
    [rest] the types from index [i] on. *)
Fixpoint intersectLoop (rest : list ShapeType) (actionTypes : ActionSet) : ActionSet :=
  match rest with
  | [] => actionTypes
  | t :: rest' =>
      if (0 <? Js.JSet.size actionTypes)%nat
      then intersectLoop rest' (intersectWith (getContextBarActionTypes t) actionTypes)
      else actionTypes
  end.

(** [singleShapeActions.forEach(action => ...)] *)
Definition dropSingleShapeActions (actionTypes : ActionSet) : ActionSet :=
  fold_left
    (fun s action =>
       if Js.JSet.has action_eqb s action
       then Js.JSet.delete action_eqb s action
       else s)
    singleShapeActions actionTypes.

Definition byEnumerationOrder (a b : ContextBarActionType) : Z :=
  (Js.indexOf action_eqb contextBarActionTypes a
   - Js.indexOf action_eqb contextBarActionTypes b)%Z.

(** The action names behind the result: the body of
    [getContextBarActionsForTypes] up to and including the [sort]. *)
Definition resolvedActionTypes (shapes : list Shape) : list ContextBarActionType :=
  let types := map type shapes in
  let actionTypes :=
    Js.JSet.of_array action_eqb
      (match types with
       | t0 :: _ => getContextBarActionTypes t0
       | [] => []
       end) in
  let actionTypes := intersectLoop (tl types) actionTypes in
  let actionTypes :=
    if (1 <? List.length shapes)%nat then dropSingleShapeActions actionTypes
    else actionTypes in
  Js.sort byEnumerationOrder (Js.JSet.to_array actionTypes).

(** [getContextBarActionsForTypes]: the components to mount; [None] stands
    for the [undefined] that [get] gives for an unregistered action. *)
Definition getContextBarActionsForTypes (shapes : list Shape) : list (option Component) :=
  map (mapping_get contextBarActionMapping) (resolvedActionTypes shapes).

(** ** What the widgets display *)

(** Reading [shapes[0]]: [None] stands for the [TypeError] raised when a
    property of [undefined] is read. *)
Definition firstShape (shapes : list Shape) : option Shape := hd_error shapes.

(** [AutoResizingAction]: [pressed] and [toggle]. *)
Definition AutoResizingAction_pressed (selected : list Shape) : bool :=
  Js.every isAutoResizing (filterShapeByAction selected AutoResizing).

Definition AutoResizingAction_toggle (selected : list Shape) : bool :=
  Js.every (fun s => String.eqb (type s) "logseq-portal")
    (filterShapeByAction selected AutoResizing).

(** [LogseqPortalViewModeAction]: [collapsed ? '1' : '0']. *)
Definition LogseqPortalViewModeAction_value (selected : list Shape) : string :=
  if Js.every collapsed (filterShapeByAction selected LogseqPortalViewMode)
  then "1" else "0".

(** [ScaleLevelAction]:
    [new Set(shapes.map(s => s.scaleLevel)).size > 1 ? '' : shapes[0].scaleLevel]. *)
Definition ScaleLevelAction_scaleLevel (selected : list Shape) : option string :=
  let shapes := filterShapeByAction selected ScaleLevel in
  if (1 <? Js.JSet.size (Js.JSet.of_array String.eqb (map scaleLevel shapes)))%nat
  then Some EmptyString
  else option_map scaleLevel (firstShape shapes).

(** [NoFillAction]: [noFill]. *)
Definition NoFillAction_noFill (selected : list Shape) : bool :=
  Js.every noFill (filterShapeByAction selected NoFill).

(** The colour a shape shows: its stroke when it has no fill. *)
Definition shownColor (s : Shape) : string := if noFill s then stroke s else fill s.

(** [SwatchAction]:
    [shapes[0].props.noFill ? shapes[0].props.stroke : shapes[0].props.fill]. *)
Definition SwatchAction_value (selected : list Shape) : option string :=
  option_map shownColor (firstShape (filterShapeByAction selected Swatch)).

(** [StrokeTypeAction]: ['dashed'], ['line'] or ['mixed']. *)
Definition StrokeTypeAction_value (selected : list Shape) : string :=
  let shapes := filterShapeByAction selected StrokeType in
  if Js.every (fun s => String.eqb (strokeType s) "dashed") shapes then "dashed"
  else if Js.every (fun s => String.eqb (strokeType s) "line") shapes then "line"
  else "mixed".

Definition isArrow (d : option Decoration) : bool :=
  match d with Some Arrow => true | None => false end.

(** [ArrowModeAction]: the pressed arrow heads. *)
Definition ArrowModeAction_value (selected : list Shape) : list string :=
  let shapes := filterShapeByAction selected ArrowMode in
  let startValue := Js.every (fun s => isArrow (decorations_start s)) shapes in
  let endValue := Js.every (fun s => isArrow (decorations_end s)) shapes in
  (if startValue then ["start"] else []) ++ (if endValue then ["end"] else []).

(** [TextStyleAction]: [bold] and [italic]. *)
Definition TextStyleAction_bold (selected : list Shape) : bool :=
  Js.every (fun s => (500 <? fontWeight s)%Z) (filterShapeByAction selected TextStyle).

Definition TextStyleAction_italic (selected : list Shape) : bool :=
  Js.every italic (filterShapeByAction selected TextStyle).

(** ** What the change handlers do *)

(** The argument of [shape.update]. *)
Inductive Patch : Type :=
| Patch_isAutoResizing (v : bool)
| Patch_noFill (v : bool)
| Patch_fill (v : string)
| Patch_strokeType (v : string)
| Patch_decorations (start_ end_ : option Decoration)
| Patch_fontWeight (v : Z)
| Patch_italic (v : bool).

(** The calls a handler makes on the shapes and on the application, which
    own the state. *)
Inductive Call : Type :=
| Update (s : Shape) (p : Patch)
| OnResetBounds (s : Shape) (withZoom : bool)
| SetCollapsed (s : Shape) (v : bool)
| SetScaleLevel (s : Shape) (v : string)
| OnYoutubeLinkChange (s : Shape) (v : string)
| Persist (ephemeral : bool).

(** [shapes.forEach(f)] followed by the rest of the handler. *)
Definition forEachShape (shapes : list Shape) (f : Shape -> list Call) : list Call :=
  flat_map f shapes.

Definition AutoResizingAction_onPressedChange (selected : list Shape) (v : bool)
  : list Call :=
  forEachShape (filterShapeByAction selected AutoResizing)
    (fun s =>
       if String.eqb (type s) "logseq-portal"
       then [Update s (Patch_isAutoResizing v)]
       else [OnResetBounds s true])
  ++ [Persist false].

Definition LogseqPortalViewModeAction_onValueChange (selected : list Shape) (v : string)
  : list Call :=
  forEachShape (filterShapeByAction selected LogseqPortalViewMode)
    (fun shape => [SetCollapsed shape (if String.eqb v "1" then true else false)])
  ++ [Persist false].

Definition ScaleLevelAction_onValueChange (selected : list Shape) (v : string)
  : list Call :=
  forEachShape (filterShapeByAction selected ScaleLevel)
    (fun shape => [SetScaleLevel shape v])
  ++ [Persist false].

(** [YoutubeLinkAction]: [shape], the first matching shape of a render. *)
Definition YoutubeLinkAction_shape (selected : list Shape) : option Shape :=
  firstShape (filterShapeByAction selected YoutubeLink).

(** [YoutubeLinkAction]: the value of the text input,
    [`${shape.props.url}`], where [url] reads the link of a shape.  [None]
    stands for the [TypeError] that the render raises when [shape] is
    [undefined]. *)
Definition YoutubeLinkAction_value (url : Shape -> string) (selected : list Shape)
  : option string :=
  option_map url (YoutubeLinkAction_shape selected).

(** [YoutubeLinkAction]'s [handleChange], closed over the [shape] of the
    render that built it. *)
Definition YoutubeLinkAction_handleChange (shape : Shape) (v : string) : list Call :=
  [OnYoutubeLinkChange shape v; Persist false].

Definition NoFillAction_handleChange (selected : list Shape) (v : bool) : list Call :=
  forEachShape (filterShapeByAction selected NoFill)
    (fun s => [Update s (Patch_noFill v)])
  ++ [Persist false].

(** [SwatchAction]'s inner [handler]: it writes [latestValue], not the value
    of the event. *)
Definition SwatchAction_handler (selected : list Shape) (latestValue : string)
  : list Call :=
  forEachShape (filterShapeByAction selected Swatch)
    (fun s => [Update s (Patch_fill latestValue)])
  ++ [Persist true].

Definition StrokeTypeAction_onValueChange (selected : list Shape) (v : string)
  : list Call :=
  forEachShape (filterShapeByAction selected StrokeType)
    (fun shape => [Update shape (Patch_strokeType v)])
  ++ [Persist false].

Definition valueToDecorations (value : list string) : Patch :=
  Patch_decorations
    (if Js.includes String.eqb value "start" then Some Arrow else None)
    (if Js.includes String.eqb value "end" then Some Arrow else None).

Definition ArrowModeAction_onValueChange (selected : list Shape) (v : list string)
  : list Call :=
  forEachShape (filterShapeByAction selected ArrowMode)
    (fun shape => [Update shape (valueToDecorations v)])
  ++ [Persist false].

Definition TextStyleAction_bold_onPressedChange (selected : list Shape) (v : bool)
  : list Call :=
  forEachShape (filterShapeByAction selected TextStyle)
    (fun shape =>
       [Update shape (Patch_fontWeight (if v then 700 else 400)%Z);
        OnResetBounds shape false])
  ++ [Persist false].

Definition TextStyleAction_italic_onPressedChange (selected : list Shape) (v : bool)
  : list Call :=
  forEachShape (filterShapeByAction selected TextStyle)
    (fun shape => [Update shape (Patch_italic v); OnResetBounds shape false])
  ++ [Persist false].

(** The shape a call is made on. *)
Definition target (c : Call) : option Shape :=
  match c with
  | Update s _ | OnResetBounds s _ | SetCollapsed s _ | SetScaleLevel s _
  | OnYoutubeLinkChange s _ => Some s
  | Persist _ => None
  end.

Fixpoint somes (A : Type) (l : list (option A)) : list A :=
  match l with
  | [] => []
  | Some x :: l' => x :: somes l'
  | None :: l' => somes l'
  end.

(** The shapes the calls are made on, and the flushes requested. *)
Definition touched (calls : list Call) : list Shape := somes (map target calls).
Definition persists (calls : list Call) : list bool :=
  flat_map (fun c => match c with Persist e => [e] | _ => [] end) calls.

(** ** The debounced colour input *)

Module Debounce.
Section Debounce.
(** [Env]: the variables the two callbacks close over; [Arg]: the
    argument of a call; [Effect]: what the delayed callback does. *)
Variables Env Arg Effect : Type.
Variable fn : Env -> list Effect.
Variable immediateFn : Arg -> Env -> Env.
Variable ms : nat.

(** [timeoutId]: the time at which the outstanding timer is due, if one
    is outstanding. *)
Record state : Type := mkState { env : Env; timeoutId : option nat }.

(** The timer that is due by [now] runs [fn]. *)
Definition expire (now : nat) (st : state) : state * list Effect :=
  match timeoutId st with
  | Some due =>
      if (due <=? now)%nat then (mkState (env st) None, fn (env st)) else (st, [])
  | None => (st, [])
  end.

(** Modelled from the spec: [debounce] is imported from [@tldraw/core],
    outside this file.  A call at time [now] replaces the outstanding
    timer (it is not queued), runs [immediateFn] at once and arms a
    trailing timer [ms] later: only the latest pending value commits. *)
Definition call (now : nat) (arg : Arg) (st : state) : state * list Effect :=
  let (st1, out) := expire now st in
  (mkState (immediateFn arg (env st1)) (Some (now + ms)%nat), out).

(** The calls of [events], each with its time, in order. *)
Fixpoint run (events : list (nat * Arg)) (st : state) : state * list Effect :=
  match events with
  | [] => (st, [])
  | (now, arg) :: events' =>
      let (st1, out1) := call now arg st in
      let (st2, out2) := run events' st1 in
      (st2, out1 ++ out2)
  end.

(** No further call arrives: the outstanding timer runs. *)
Definition settle (st : state) : list Effect :=
  match timeoutId st with
  | Some _ => fn (env st)
  | None => []
  end.

Definition play (events : list (nat * Arg)) (st : state) : list Effect :=
  let (st1, out) := run events st in out ++ settle st1.

(** Every event comes less than [ms] after the one before it. *)
Fixpoint closeAfter (prev : nat) (events : list (nat * Arg)) : Prop :=
  match events with
  | [] => True
  | (now, _) :: events' =>
      (prev <= now)%nat /\ (now < prev + ms)%nat /\ closeAfter now events'
  end.

Definition burst (events : list (nat * Arg)) : Prop :=
  match events with
  | [] => False
  | (now, _) :: events' => closeAfter now events'
  end.
End Debounce.
End Debounce.

(** [SwatchAction]'s [handleChange]:
    [debounce(handler, 100, e => { latestValue = e.target.value })], with
    [latestValue] the closed-over variable, initially ['']. *)
Definition SwatchAction_handleChange (selected : list Shape)
  (events : list (nat * string)) : list Call :=
  Debounce.play (SwatchAction_handler selected) (fun value _ => value) 100
    events (Debounce.mkState EmptyString None).

(** The value of the last event. *)
Definition latest (events : list (nat * string)) : string :=
  fold_left (fun _ e => snd e) events EmptyString.

(** ** Mounted widgets *)

Definition isSome (A : Type) (o : option A) : bool :=
  match o with Some _ => true | None => false end.

(** Whether the render of the widget of an action goes through on a
    selection: the colour input, the scale-level select, the link input and
    the page buttons read a property of [shapes[0]] while rendering, which
    raises when no selected shape matches. *)
Definition renders (a : ContextBarActionType) (selected : list Shape) : bool :=
  match a with
  | Swatch => isSome (SwatchAction_value selected)
  | ScaleLevel => isSome (ScaleLevelAction_scaleLevel selected)
  | YoutubeLink => isSome (YoutubeLinkAction_shape selected)
  | OpenPage => isSome (firstShape (filterShapeByAction selected OpenPage))
  | _ => true
  end.

(** A change a user makes through one of the widgets, with the new value;
    for the colour input, the input events of the change with their times
    in ms. *)
Inductive Change : Type :=
| ChangeAutoResizing (v : bool)
| ChangeViewMode (v : string)
| ChangeScaleLevel (v : string)
| ChangeYoutubeLink (v : string)
| ChangeNoFill (v : bool)
| ChangeSwatch (events : list (nat * string))
| ChangeStrokeType (v : string)
| ChangeArrowMode (v : list string)
| ChangeBold (v : bool)
| ChangeItalic (v : bool).

(** The action whose widget owns the handler. *)
Definition actionOf (c : Change) : ContextBarActionType :=
  match c with
  | ChangeAutoResizing _ => AutoResizing
  | ChangeViewMode _ => LogseqPortalViewMode
  | ChangeScaleLevel _ => ScaleLevel
  | ChangeYoutubeLink _ => YoutubeLink
  | ChangeNoFill _ => NoFill
  | ChangeSwatch _ => Swatch
  | ChangeStrokeType _ => StrokeType
  | ChangeArrowMode _ => ArrowMode
  | ChangeBold _ | ChangeItalic _ => TextStyle
  end.

(** The handlers built once, at the first render of their widget:
    [useCallback] and [useMemo] with an empty list of dependencies. *)
Definition builtOnce (c : Change) : bool :=
  match c with
  | ChangeYoutubeLink _ | ChangeNoFill _ | ChangeSwatch _ => true
  | _ => false
  end.

(** The calls a change makes through a mounted widget that was first
    rendered for the selection [first] and last rendered for [current].  The
    handlers built once keep the shapes of the first render, the others are
    rebuilt by every render; the colour input goes through the debounced
    handler.  [None]: a render raised, there is no widget to change. *)
Definition runChange (first current : list Shape) (c : Change) : option (list Call) :=
  if renders (actionOf c) first && renders (actionOf c) current then
    match c with
    | ChangeAutoResizing v => Some (AutoResizingAction_onPressedChange current v)
    | ChangeViewMode v => Some (LogseqPortalViewModeAction_onValueChange current v)
    | ChangeScaleLevel v => Some (ScaleLevelAction_onValueChange current v)
    | ChangeYoutubeLink v =>
        option_map (fun shape => YoutubeLinkAction_handleChange shape v)
          (YoutubeLinkAction_shape first)
    | ChangeNoFill v => Some (NoFillAction_handleChange first v)
    | ChangeSwatch events => Some (SwatchAction_handleChange first events)
    | ChangeStrokeType v => Some (StrokeTypeAction_onValueChange current v)
    | ChangeArrowMode v => Some (ArrowModeAction_onValueChange current v)
    | ChangeBold v => Some (TextStyleAction_bold_onPressedChange current v)
    | ChangeItalic v => Some (TextStyleAction_italic_onPressedChange current v)
    end
  else None.

(** What a call hands to a shape. *)
Inductive Written : Type :=
| WrotePatch (p : Patch)
| WroteCollapsed (v : bool)
| WroteScaleLevel (v : string)
| WroteYoutubeLink (v : string).

Definition handed (c : Call) : option (Shape * Written) :=
  match c with
  | Update s p => Some (s, WrotePatch p)
  | SetCollapsed s v => Some (s, WroteCollapsed v)
  | SetScaleLevel s v => Some (s, WroteScaleLevel v)
  | OnYoutubeLinkChange s v => Some (s, WroteYoutubeLink v)
  | OnResetBounds _ _ | Persist _ => None
  end.

(** The shapes that are handed a value, each with the value. *)
Definition writtenValues (calls : list Call) : list (Shape * Written) :=
  somes (map handed calls).

(** ** The edit button *)

(** A block of a page as the host application hands it out;
    [propertiesOrder_in] is ['propertiesOrder' in b]. *)
Record Block : Type := mkBlock { uuid : string; propertiesOrder_in : bool }.

(** [window.logseq?.api]: each of its functions may be missing. *)
Record LogseqApi : Type := mkLogseqApi {
  get_page_blocks_tree : option (string -> list Block);
  has_edit_block : bool
}.

(** The properties of a [logseq-portal] shape that [EditAction] reads. *)
Record PortalProps : Type := mkPortalProps { pageId : string; blockType : string }.

(** What the click does outside the component. *)
Inductive HostCall : Type :=
| EditShape (shape : option Shape)
| GetPageBlocksTree (page : string)
| EditBlock (block : string).

(** How the click handler ends: [Raised] stands for the [TypeError] of
    reading a property of [undefined]. *)
Inductive Completion : Type := Returned | Raised.

(** [window.logseq?.api?.edit_block?.(uuid)] *)
Definition edit_block (api : option LogseqApi) (block : string) : list HostCall :=
  match api with
  | Some a => if has_edit_block a then [EditBlock block] else []
  | None => []
  end.

(** [EditAction]'s [onClick]; [portal] reads the portal properties of a
    shape, [None] as first shape stands for [undefined]. *)
Definition EditAction_onClick (api : option LogseqApi) (portal : Shape -> PortalProps)
  (selected : list Shape) : list HostCall * Completion :=
  match firstShape (filterShapeByAction selected Edit) with
  | None => ([EditShape None], Raised)
  | Some shape =>
      if String.eqb (type shape) "logseq-portal" then
        if String.eqb (blockType (portal shape)) "P" then
          match api with
          | Some a =>
              match get_page_blocks_tree a with
              | Some tree =>
                  match find (fun b => negb (propertiesOrder_in b))
                          (tree (pageId (portal shape))) with
                  | Some firstNonePropertyBlock =>
                      ([EditShape (Some shape); GetPageBlocksTree (pageId (portal shape))]
                       ++ edit_block api (uuid firstNonePropertyBlock), Returned)
                  | None =>
                      ([EditShape (Some shape); GetPageBlocksTree (pageId (portal shape))],
                       Raised)
                  end
              | None => ([EditShape (Some shape)], Raised)
              end
          | None => ([EditShape (Some shape)], Raised)
          end
        else ([EditShape (Some shape)] ++ edit_block api (pageId (portal shape)), Returned)
      else ([EditShape (Some shape)], Returned)
  end.

(** The blocks of the page shown by a portal, when the host can list them. *)
Definition pageBlocks (api : option LogseqApi) (page : string) : option (list Block) :=
  match api with
  | Some a =>
      match get_page_blocks_tree a with
      | Some tree => Some (tree page)
      | None => None
      end
  | None => None
  end.

(** ** The head bar of the landing page *)

Module Headbar.

(** An entry of a links group; [icon] may be left out. *)
Record Item : Type := mkItem { link : string; label : string; icon : option string }.

(** What an entry renders to: an anchor that opens a new tab, or a link of
    the router. *)
Inductive Element : Type :=
| Anchor (href target : string) (inner : string) (innerIcon : option string)
| RouterLink (to : string) (inner : string) (innerIcon : option string).

(** [LinksGroup]: one list entry per item; [it.link.startsWith('http')]
    chooses the anchor. *)
Definition LinksGroup (items : list Item) : list Element :=
  map (fun it =>
         if String.prefix "http" (link it)
         then Anchor (link it) "_blank" (label it) (icon it)
         else RouterLink (link it) (label it) (icon it))
    items.

Definition leftLinks : list Item :=
  [ mkItem "/" "Home" None; mkItem "/downloads" "Downloads" None ].

Definition rightLinks : list Item :=
  [ mkItem "https://logseq.com" "Jobs" (Some "ArrowSquareOut");
    mkItem "https://discord.com/invite/KpN4eHY" "Community Hub" (Some "ArrowSquareOut");
    mkItem "https://blog.logseq.com/" "Blog" (Some "ArrowSquareOut") ].

(** [Headbar]: the left and the right group. *)
Definition Headbar : list Element * list Element :=
  (LinksGroup leftLinks, LinksGroup rightLinks).

Definition isAnchor (e : Element) : bool :=
  match e with Anchor _ _ _ _ => true | RouterLink _ _ _ => false end.

End Headbar.

(** ** Auxiliary notions *)

(** Every type of [rest] offers [a]. *)
Definition offeredByAll (rest : list ShapeType) (a : ContextBarActionType) : bool :=
  forallb (fun t => Js.includes action_eqb (getContextBarActionTypes t) a) rest.

(** Position in [contextBarActionTypes]. *)
Definition position (a : ContextBarActionType) : Z :=
  Js.indexOf action_eqb contextBarActionTypes a.

Definition notAfter (a b : ContextBarActionType) : Prop := (position a <= position b)%Z.
Definition before (a b : ContextBarActionType) : Prop := (position a < position b)%Z.

(** The shapes do not all hold the same value of a property. *)
Definition disagree (A : Type) (prop : Shape -> A) (shapes : list Shape) : Prop :=
  exists s1 s2, In s1 shapes /\ In s2 shapes /\ prop s1 <> prop s2.

(** When the shapes disagree, what is displayed is the value of none of
    them. *)
Definition showsNeutral (A : Type) (prop : Shape -> A) (display : option A)
  (shapes : list Shape) : Prop :=
  disagree prop shapes -> forall s, In s shapes -> display <> Some (prop s).

(** A flush requested by the colour input may be coalesced. *)
Definition ephemeralOf (c : Change) : bool :=
  match c with ChangeSwatch _ => true | _ => false end.

(** The matching shapes a handler walks: the link handler stops at the
    first. *)
Definition reached (c : Change) (shapes : list Shape) : list Shape :=
  match c with
  | ChangeYoutubeLink _ => firstn 1 shapes
  | _ => shapes
  end.

(** The shapes among those reached that are handed the new value. *)
Definition receivesValue (c : Change) (s : Shape) : bool :=
  match c with
  | ChangeAutoResizing _ => String.eqb (type s) "logseq-portal"
  | _ => true
  end.

(** The new value of a change, as the shapes are to receive it. *)
Definition valueOf (c : Change) : Written :=
  match c with
  | ChangeAutoResizing v => WrotePatch (Patch_isAutoResizing v)
  | ChangeViewMode v => WroteCollapsed (if String.eqb v "1" then true else false)
  | ChangeScaleLevel v => WroteScaleLevel v
  | ChangeYoutubeLink v => WroteYoutubeLink v
  | ChangeNoFill v => WrotePatch (Patch_noFill v)
  | ChangeSwatch events => WrotePatch (Patch_fill (latest events))
  | ChangeStrokeType v => WrotePatch (Patch_strokeType v)
  | ChangeArrowMode v => WrotePatch (valueToDecorations v)
  | ChangeBold v => WrotePatch (Patch_fontWeight (if v then 700 else 400)%Z)
  | ChangeItalic v => WrotePatch (Patch_italic v)
  end.

(** The handler of a widget just rendered for [selected] hands the new
    value to exactly the selected shapes that support its action, touches no
    other shape and then flushes once. *)
Definition updatesMatchingThenPersists (selected : list Shape) (c : Change) : Prop :=
  exists calls e,
    runChange selected selected c = Some (calls ++ [Persist e])
    /\ persists calls = []
    /\ writtenValues calls
       = map (fun s => (s, valueOf c)) (filterShapeByAction selected (actionOf c))
    /\ (forall s, In s selected -> supportsAction s (actionOf c) = false ->
                  ~ In s (touched calls)).

(** The shape holds the value that was handed to it; the link of a youtube
    shape is not among the fields read here. *)
Definition holds (w : Written) (s : Shape) : Prop :=
  match w with
  | WrotePatch (Patch_isAutoResizing v) => isAutoResizing s = v
  | WrotePatch (Patch_noFill v) => noFill s = v
  | WrotePatch (Patch_fill v) => fill s = v
  | WrotePatch (Patch_strokeType v) => strokeType s = v
  | WrotePatch (Patch_decorations a b) => decorations_start s = a /\ decorations_end s = b
  | WrotePatch (Patch_fontWeight v) => fontWeight s = v
  | WrotePatch (Patch_italic v) => italic s = v
  | WroteCollapsed v => collapsed s = v
  | WroteScaleLevel v => scaleLevel s = v
  | WroteYoutubeLink _ => True
  end.

(** Two boxes of different colours, a dashed box and a text shape. *)
Definition redBox : Shape :=
  mkShape "box-1" "box" false false "md" false "#ff0000" "#000000" "line" None None 400%Z false.
Definition blueBox : Shape :=
  mkShape "box-2" "box" false false "md" false "#0000ff" "#000000" "line" None None 400%Z false.
Definition dashedBox : Shape :=
  mkShape "box-3" "box" false false "md" false "#ff0000" "#000000" "dashed" None None 400%Z false.
Definition label : Shape :=
  mkShape "text-1" "text" true false "md" false "#000000" "#000000" "line" None None 400%Z false.

(** Two texts of different weight, both above 500. *)
Definition semiBoldLabel : Shape :=
  mkShape "text-2" "text" true false "md" false "#000000" "#000000" "line" None None 600%Z false.
Definition boldLabel : Shape :=
  mkShape "text-3" "text" true false "md" false "#000000" "#000000" "line" None None 700%Z false.

(** ** What the specification says the resolver computes *)

Module Spec.

(** The table assigns action [a] to shape [s]. *)
Definition assigns (s : Shape) (a : ContextBarActionType) : bool :=
  match lookup shapeMapping (type s) with
  | Some actions => Js.includes action_eqb actions a
  | None => false
  end.

Definition singleShapeOnly (a : ContextBarActionType) : bool :=
  Js.includes action_eqb singleShapeActions a.

(** Applicable to all shapes of the selection, and not single-shape-only
    when the selection has more than one shape. *)
Definition applicable (shapes : list Shape) (a : ContextBarActionType) : bool :=
  forallb (fun s => assigns s a) shapes
  && (if (1 <? List.length shapes)%nat then negb (singleShapeOnly a) else true).

(** The applicable actions, in the order of the enumeration. *)
Definition actionsFor (shapes : list Shape) : list ContextBarActionType :=
  filter (applicable shapes) contextBarActionTypes.

End Spec.

(** [l] is a subsequence of [m]: [l] is [m] with some elements left out. *)
Inductive subsequence (A : Type) : list A -> list A -> Prop :=
| subseq_nil : subsequence [] []
| subseq_skip : forall x l m, subsequence l m -> subsequence l (x :: m)
| subseq_keep : forall x l m, subsequence l m -> subsequence (x :: l) (x :: m).

(** * Proofs *)

(** ** The tables at work *)

Example resolve_portal :
  getContextBarActionsForTypes [shapeOfType "logseq-portal"]
  = [Some EditAction; Some AutoResizingAction; Some ScaleLevelAction;
     Some LogseqPortalViewModeAction; Some OpenPageAction].
Proof. reflexivity. Qed.

Example resolve_box_line :
  getContextBarActionsForTypes [shapeOfType "box"; shapeOfType "line"]
  = [Some SwatchAction].
Proof. reflexivity. Qed.

Example noStrokeShapes_value :
  noStrokeShapes = ["line"; "pencil"; "highlighter"; "text"].
Proof. reflexivity. Qed.

(** ** Equality on action names *)

Lemma action_eqb_eq (a b : ContextBarActionType) : action_eqb a b = true <-> a = b.
Proof. split; [destruct a, b; simpl; congruence | intros ->; destruct b; reflexivity]. Qed.

Lemma action_eqb_refl (a : ContextBarActionType) : action_eqb a a = true.
Proof. now apply action_eqb_eq. Qed.

Lemma action_eqb_neq (a b : ContextBarActionType) : action_eqb a b = false <-> a <> b.
Proof.
  rewrite <- action_eqb_eq. destruct (action_eqb a b); split; congruence.
Qed.

Section MembershipFacts.
Variable A : Type.
Variable eqb : A -> A -> bool.
Hypothesis eqb_eq : forall a b, eqb a b = true <-> a = b.

Lemma Js_includes_In (l : list A) (a : A) : Js.includes eqb l a = true <-> In a l.
Proof.
  unfold Js.includes. rewrite existsb_exists. split.
  - intros [x [Hx He]]. apply eqb_eq in He. now subst.
  - intros H. exists a. split; [assumption | now apply eqb_eq].
Qed.

Lemma JSet_add_In (s : Js.JSet.t A) (x a : A) :
  In a (Js.JSet.add eqb s x) <-> In a s \/ a = x.
Proof.
  unfold Js.JSet.add. destruct (Js.JSet.has eqb s x) eqn:E.
  - apply Js_includes_In in E. split; [now left | intros [H | ->]; assumption].
  - rewrite in_app_iff. simpl. intuition.
Qed.

Lemma JSet_add_NoDup (s : Js.JSet.t A) (x : A) :
  NoDup s -> NoDup (Js.JSet.add eqb s x).
Proof.
  intros H. unfold Js.JSet.add. destruct (Js.JSet.has eqb s x) eqn:E; [assumption|].
  apply NoDup_app; [assumption | repeat constructor; intros [] | ].
  intros a Ha [<- | []]. apply Js_includes_In in Ha.
  change (Js.includes eqb s x = false) in E. congruence.
Qed.

Lemma JSet_fold_add_In (xs : list A) (s : Js.JSet.t A) (a : A) :
  In a (fold_left (Js.JSet.add eqb) xs s) <-> In a s \/ In a xs.
Proof.
  revert s. induction xs as [|x xs IH]; intros s; simpl; [intuition|].
  rewrite IH, JSet_add_In. intuition.
Qed.

Lemma JSet_fold_add_NoDup (xs : list A) (s : Js.JSet.t A) :
  NoDup s -> NoDup (fold_left (Js.JSet.add eqb) xs s).
Proof.
  revert s. induction xs as [|x xs IH]; intros s H; simpl; [assumption|].
  apply IH. now apply JSet_add_NoDup.
Qed.

Lemma JSet_of_array_In (xs : list A) (a : A) :
  In a (Js.JSet.of_array eqb xs) <-> In a xs.
Proof. unfold Js.JSet.of_array. rewrite JSet_fold_add_In. simpl. intuition. Qed.

Lemma JSet_of_array_NoDup (xs : list A) : NoDup (Js.JSet.of_array eqb xs).
Proof. apply JSet_fold_add_NoDup. constructor. Qed.
End MembershipFacts.

Lemma includes_In (l : list ContextBarActionType) (a : ContextBarActionType) :
  Js.includes action_eqb l a = true <-> In a l.
Proof. apply Js_includes_In, action_eqb_eq. Qed.

Lemma has_In (s : ActionSet) (a : ContextBarActionType) :
  Js.JSet.has action_eqb s a = true <-> In a s.
Proof. apply includes_In. Qed.

(** ** Filters *)

Lemma filter_filter (A : Type) (f g : A -> bool) (l : list A) :
  filter f (filter g l) = filter (fun x => g x && f x) l.
Proof.
  induction l as [|x l IH]; simpl; [reflexivity|].
  destruct (g x); simpl; [destruct (f x)|]; now rewrite IH.
Qed.

Lemma filter_all (A : Type) (f : A -> bool) (l : list A) :
  (forall x, In x l -> f x = true) -> filter f l = l.
Proof.
  induction l as [|x l IH]; simpl; intros H; [reflexivity|].
  rewrite (H x (or_introl eq_refl)). f_equal. apply IH. intros; apply H; now right.
Qed.

Lemma filter_subsequence (A : Type) (f : A -> bool) (l : list A) :
  subsequence (filter f l) l.
Proof.
  induction l as [|x l IH]; simpl; [constructor|].
  destruct (f x); now constructor.
Qed.

Lemma map_subsequence (A B : Type) (f : A -> B) (l m : list A) :
  subsequence l m -> subsequence (map f l) (map f m).
Proof. induction 1; simpl; now constructor. Qed.

(** ** Sets *)

Lemma delete_filter (s : ActionSet) (a : ContextBarActionType) :
  Js.JSet.delete action_eqb s a = filter (fun y => negb (action_eqb a y)) s.
Proof. reflexivity. Qed.

Lemma delete_absent (s : ActionSet) (a : ContextBarActionType) :
  Js.JSet.has action_eqb s a = false -> Js.JSet.delete action_eqb s a = s.
Proof.
  intros H. rewrite delete_filter. apply filter_all. intros x Hx.
  destruct (action_eqb a x) eqn:E; [|reflexivity].
  apply action_eqb_eq in E. subst x. apply has_In in Hx. congruence.
Qed.

Lemma of_array_In (xs : list ContextBarActionType) (a : ContextBarActionType) :
  In a (Js.JSet.of_array action_eqb xs) <-> In a xs.
Proof. apply JSet_of_array_In, action_eqb_eq. Qed.

Lemma of_array_NoDup (xs : list ContextBarActionType) :
  NoDup (Js.JSet.of_array action_eqb xs).
Proof. apply JSet_of_array_NoDup, action_eqb_eq. Qed.

(** ** The loop of the resolver *)

Section IntersectWith.
Variable other : list ContextBarActionType.

Let body (s : ActionSet) (action : ContextBarActionType) : ActionSet :=
  if negb (Js.includes action_eqb other action)
  then Js.JSet.delete action_eqb s action
  else s.

(** Walking the elements [todo] removes those of them that [other] lacks. *)
Lemma forEach_from_filter (todo : list ContextBarActionType) (s : ActionSet) :
  Js.JSet.forEach_from action_eqb body todo s
  = filter (fun a => Js.includes action_eqb other a
                     || negb (Js.includes action_eqb todo a)) s.
Proof.
  revert s. induction todo as [|x todo IH]; intros s; simpl.
  - symmetry. apply filter_all. intros a _. apply orb_true_r.
  - destruct (Js.JSet.has action_eqb s x) eqn:Hx.
    + rewrite IH. unfold body.
      destruct (Js.includes action_eqb other x) eqn:Hox; simpl.
      * apply filter_ext. intros a.
        destruct (action_eqb a x) eqn:E; simpl; [|reflexivity].
        apply action_eqb_eq in E. subst a. now rewrite Hox.
      * rewrite delete_filter, filter_filter. apply filter_ext. intros a.
        destruct (action_eqb x a) eqn:E.
        -- apply action_eqb_eq in E. subst a.
           rewrite Hox, action_eqb_refl. reflexivity.
        -- assert (action_eqb a x = false) as ->.
           { apply action_eqb_neq. apply action_eqb_neq in E. congruence. }
           reflexivity.
    + rewrite IH. apply filter_ext_in. intros a Ha.
      destruct (action_eqb a x) eqn:E; simpl; [|reflexivity].
      apply action_eqb_eq in E. subst a. apply has_In in Ha. congruence.
Qed.

Lemma intersectWith_filter (s : ActionSet) :
  intersectWith other s = filter (Js.includes action_eqb other) s.
Proof.
  unfold intersectWith, Js.JSet.forEach.
  change (Js.JSet.forEach_from action_eqb body s s = filter (Js.includes action_eqb other) s).
  rewrite forEach_from_filter. apply filter_ext_in. intros a Ha.
  apply includes_In in Ha. rewrite Ha. simpl. apply orb_false_r.
Qed.
End IntersectWith.

Lemma intersectLoop_filter (rest : list ShapeType) (s : ActionSet) :
  intersectLoop rest s = filter (offeredByAll rest) s.
Proof.
  revert s. induction rest as [|t rest IH]; intros s; simpl.
  - symmetry. now apply filter_all.
  - destruct s as [|a s]; [reflexivity|].
    change (0 <? Js.JSet.size (a :: s))%nat with true. cbv iota.
    rewrite IH, intersectWith_filter, filter_filter. reflexivity.
Qed.

Lemma dropSingleShapeActions_filter (s : ActionSet) :
  dropSingleShapeActions s = filter (fun a => negb (Spec.singleShapeOnly a)) s.
Proof.
  assert (step : forall (u : ActionSet) a,
             (if Js.JSet.has action_eqb u a then Js.JSet.delete action_eqb u a else u)
             = filter (fun y => negb (action_eqb a y)) u).
  { intros u a. destruct (Js.JSet.has action_eqb u a) eqn:E; [reflexivity|].
    symmetry. now apply delete_absent. }
  unfold dropSingleShapeActions, singleShapeActions. simpl.
  rewrite !step, !filter_filter. apply filter_ext. intros a. now destruct a.
Qed.

Lemma getContextBarActionTypes_lookup (t : ShapeType) :
  getContextBarActionTypes t
  = match lookup shapeMapping t with Some actions => actions | None => [] end.
Proof. unfold getContextBarActionTypes. now apply filter_all. Qed.

Lemma includes_getContextBarActionTypes (s : Shape) (a : ContextBarActionType) :
  Js.includes action_eqb (getContextBarActionTypes (type s)) a = Spec.assigns s a.
Proof.
  rewrite getContextBarActionTypes_lookup. unfold Spec.assigns.
  now destruct (lookup shapeMapping (type s)).
Qed.

Lemma offeredByAll_map (shapes : list Shape) (a : ContextBarActionType) :
  offeredByAll (map type shapes) a = forallb (fun s => Spec.assigns s a) shapes.
Proof.
  unfold offeredByAll. induction shapes as [|s shapes IH]; simpl; [reflexivity|].
  now rewrite IH, includes_getContextBarActionTypes.
Qed.

(** ** Sorting by the enumeration *)

Lemma position_inj (a b : ContextBarActionType) : position a = position b -> a = b.
Proof. destruct a, b; vm_compute; congruence. Qed.

Lemma In_contextBarActionTypes (a : ContextBarActionType) : In a contextBarActionTypes.
Proof. destruct a; simpl; tauto. Qed.

Lemma contextBarActionTypes_sorted : StronglySorted before contextBarActionTypes.
Proof.
  unfold contextBarActionTypes.
  repeat (apply SSorted_cons; [| repeat (constructor; [vm_compute; reflexivity|]); constructor]).
  constructor.
Qed.

Lemma sort_insert_perm (x : ContextBarActionType) (l : list ContextBarActionType) :
  Permutation (Js.sort_insert byEnumerationOrder x l) (x :: l).
Proof.
  induction l as [|y l IH]; simpl; [reflexivity|].
  destruct (byEnumerationOrder x y <=? 0)%Z; [reflexivity|].
  rewrite IH. apply perm_swap.
Qed.

Lemma sort_perm (l : list ContextBarActionType) :
  Permutation (Js.sort byEnumerationOrder l) l.
Proof.
  induction l as [|x l IH]; simpl; [reflexivity|].
  rewrite sort_insert_perm. now constructor.
Qed.

Lemma sort_insert_sorted (x : ContextBarActionType) (l : list ContextBarActionType) :
  StronglySorted notAfter l ->
  StronglySorted notAfter (Js.sort_insert byEnumerationOrder x l).
Proof.
  induction 1 as [|y l Hl IH Hy]; simpl.
  - repeat constructor.
  - destruct (byEnumerationOrder x y <=? 0)%Z eqn:E.
    + apply Z.leb_le in E. unfold byEnumerationOrder in E. fold (position x) (position y) in E.
      constructor; [now constructor|].
      constructor; [unfold notAfter; lia|].
      eapply Forall_impl; [|exact Hy]. unfold notAfter. intros; lia.
    + apply Z.leb_gt in E. unfold byEnumerationOrder in E. fold (position x) (position y) in E.
      constructor; [assumption|].
      eapply Permutation_Forall; [symmetry; apply sort_insert_perm|].
      constructor; [unfold notAfter; lia | assumption].
Qed.

Lemma sort_sorted (l : list ContextBarActionType) :
  StronglySorted notAfter (Js.sort byEnumerationOrder l).
Proof.
  induction l as [|x l IH]; simpl; [constructor | now apply sort_insert_sorted].
Qed.

Lemma sorted_NoDup_strict (l : list ContextBarActionType) :
  StronglySorted notAfter l -> NoDup l -> StronglySorted before l.
Proof.
  induction 1 as [|x l Hl IH Hx]; intros Hnd; [constructor|].
  inversion Hnd as [|? ? Hnotin Hnd']; subst.
  constructor; [now apply IH|].
  rewrite Forall_forall in *. intros y Hy.
  specialize (Hx y Hy). unfold notAfter, before in *.
  destruct (Z.eq_dec (position x) (position y)) as [E|E]; [|lia].
  apply position_inj in E. subst y. contradiction.
Qed.

Lemma sorted_filter (f : ContextBarActionType -> bool) (l : list ContextBarActionType) :
  StronglySorted before l -> StronglySorted before (filter f l).
Proof.
  induction 1 as [|x l Hl IH Hx]; simpl; [constructor|].
  destruct (f x); [|assumption].
  constructor; [assumption|].
  rewrite Forall_forall in *. intros y Hy. apply Hx.
  apply filter_In in Hy. tauto.
Qed.

(** Two lists in strict enumeration order with the same members are equal. *)
Lemma sorted_same_members (l m : list ContextBarActionType) :
  StronglySorted before l -> StronglySorted before m ->
  (forall a, In a l <-> In a m) -> l = m.
Proof.
  intros Hl. revert m. induction Hl as [|x l Hl IH Hx]; intros m Hm Hlm.
  - destruct m as [|y m]; [reflexivity|]. destruct (proj2 (Hlm y) (or_introl eq_refl)).
  - destruct Hm as [|y m Hm Hy].
    + destruct (proj1 (Hlm x) (or_introl eq_refl)).
    + rewrite Forall_forall in Hx, Hy. unfold before in *.
      assert (x = y) as <-.
      { destruct (proj1 (Hlm x) (or_introl eq_refl)) as [E | Hxm]; [congruence|].
        destruct (proj2 (Hlm y) (or_introl eq_refl)) as [E | Hyl]; [congruence|].
        specialize (Hx y Hyl). specialize (Hy x Hxm). lia. }
      f_equal. apply IH; [assumption|].
      intros a. split; intros Ha.
      * destruct (proj1 (Hlm a) (or_intror Ha)) as [E | H]; [|assumption].
        subst a. specialize (Hx x Ha). lia.
      * destruct (proj2 (Hlm a) (or_intror Ha)) as [E | H]; [|assumption].
        subst a. specialize (Hy x Ha). lia.
Qed.

(** Sorting a duplicate-free set lists the members in enumeration order. *)
Lemma sort_NoDup_filter (s : list ContextBarActionType) :
  NoDup s ->
  Js.sort byEnumerationOrder s = filter (Js.includes action_eqb s) contextBarActionTypes.
Proof.
  intros Hnd. apply sorted_same_members.
  - apply sorted_NoDup_strict; [apply sort_sorted|].
    eapply Permutation_NoDup; [symmetry; apply sort_perm | assumption].
  - apply sorted_filter, contextBarActionTypes_sorted.
  - intros a. rewrite filter_In, includes_In. split.
    + intros H. split; [apply In_contextBarActionTypes|].
      eapply Permutation_in; [apply sort_perm | assumption].
    + intros [_ H]. eapply Permutation_in; [symmetry; apply sort_perm | assumption].
Qed.

Lemma NoDup_filter_keep (f : ContextBarActionType -> bool) (l : list ContextBarActionType) :
  NoDup l -> NoDup (filter f l).
Proof.
  induction 1 as [|x l Hx Hl IH]; simpl; [constructor|].
  destruct (f x); [|assumption].
  constructor; [|assumption]. intros H. apply filter_In in H. tauto.
Qed.

(** ** The resolver computes the applicable actions *)

Lemma componentOf_total (a : ContextBarActionType) :
  exists c, mapping_get contextBarActionMapping a = Some c.
Proof. destruct a; eexists; reflexivity. Qed.

Lemma mapping_get_inj (a b : ContextBarActionType) :
  mapping_get contextBarActionMapping a = mapping_get contextBarActionMapping b -> a = b.
Proof. destruct a, b; simpl; congruence. Qed.

Lemma resolvedActionTypes_nil : resolvedActionTypes [] = [].
Proof. reflexivity. Qed.

Lemma resolvedActionTypes_actionsFor (shapes : list Shape) :
  shapes <> [] -> resolvedActionTypes shapes = Spec.actionsFor shapes.
Proof.
  destruct shapes as [|s0 rest]; [congruence|]. intros _.
  unfold resolvedActionTypes, Spec.actionsFor, Js.JSet.to_array.
  cbn [map tl].
  set (set0 := Js.JSet.of_array action_eqb (getContextBarActionTypes (type s0))).
  rewrite intersectLoop_filter.
  set (final := if (1 <? List.length (s0 :: rest))%nat then _ else _).
  assert (Hfinal : final
                   = filter (fun a => offeredByAll (map type rest) a
                                      && (if (1 <? List.length (s0 :: rest))%nat
                                          then negb (Spec.singleShapeOnly a) else true))
                       set0).
  { subst final. destruct (1 <? List.length (s0 :: rest))%nat.
    - now rewrite dropSingleShapeActions_filter, filter_filter.
    - apply filter_ext. intros a. now rewrite andb_true_r. }
  rewrite Hfinal. rewrite sort_NoDup_filter
    by (apply NoDup_filter_keep, of_array_NoDup).
  apply filter_ext. intros a. apply eq_iff_eq_true.
  rewrite includes_In, filter_In. subst set0. rewrite of_array_In, <- includes_In.
  rewrite includes_getContextBarActionTypes, offeredByAll_map.
  unfold Spec.applicable. cbn [forallb]. rewrite !andb_true_iff. tauto.
Qed.

Lemma getContextBarActionsForTypes_actionsFor (shapes : list Shape) :
  shapes <> [] ->
  getContextBarActionsForTypes shapes
  = map (mapping_get contextBarActionMapping) (Spec.actionsFor shapes).
Proof.
  intros H. unfold getContextBarActionsForTypes. now rewrite resolvedActionTypes_actionsFor.
Qed.

Lemma In_getContextBarActionsForTypes (shapes : list Shape) (a : ContextBarActionType) :
  In (mapping_get contextBarActionMapping a) (getContextBarActionsForTypes shapes)
  <-> In a (resolvedActionTypes shapes).
Proof.
  unfold getContextBarActionsForTypes. rewrite in_map_iff. split.
  - intros [b [E Hb]]. apply mapping_get_inj in E. now subst.
  - intros H. now exists a.
Qed.

Lemma subsequence_nil (A : Type) (l : list A) : subsequence [] l.
Proof. induction l; now constructor. Qed.

Lemma forallb_Permutation (A : Type) (f : A -> bool) (l m : list A) :
  Permutation l m -> forallb f l = forallb f m.
Proof.
  induction 1; simpl; try congruence.
  now rewrite !andb_assoc, (andb_comm (f y)).
Qed.

Lemma applicable_Permutation (l m : list Shape) (a : ContextBarActionType) :
  Permutation l m -> Spec.applicable l a = Spec.applicable m a.
Proof.
  intros H. unfold Spec.applicable.
  now rewrite (forallb_Permutation _ H), (Permutation_length H).
Qed.

Lemma filter_none (A : Type) (f : A -> bool) (l : list A) :
  (forall x, In x l -> f x = false) -> filter f l = [].
Proof.
  induction l as [|x l IH]; simpl; intros H; [reflexivity|].
  rewrite (H x (or_introl eq_refl)). apply IH. intros; apply H; now right.
Qed.

Lemma fold_add_fresh (xs : list ContextBarActionType) (s : ActionSet) :
  NoDup (s ++ xs) -> fold_left (Js.JSet.add action_eqb) xs s = s ++ xs.
Proof.
  revert s. induction xs as [|x xs IH]; intros s H; simpl.
  - now rewrite app_nil_r.
  - assert (Hx : Js.JSet.has action_eqb s x = false).
    { destruct (Js.JSet.has action_eqb s x) eqn:E; [|reflexivity].
      apply has_In in E. apply NoDup_remove_2 in H.
      exfalso. apply H. apply in_or_app. now left. }
    unfold Js.JSet.add at 2. rewrite Hx.
    rewrite IH; rewrite <- app_assoc; [reflexivity | exact H].
Qed.

Lemma of_array_NoDup_id (xs : list ContextBarActionType) :
  NoDup xs -> Js.JSet.of_array action_eqb xs = xs.
Proof. intros H. unfold Js.JSet.of_array. now rewrite fold_add_fresh. Qed.

(** No action is listed twice for a shape type. *)
Lemma shapeMapping_NoDup (t : ShapeType) (actions : list ContextBarActionType) :
  lookup shapeMapping t = Some actions -> NoDup actions.
Proof.
  unfold shapeMapping. simpl.
  repeat match goal with
         | |- (if ?c then _ else _) = _ -> _ => destruct c
         end;
    intros E; inversion E; subst;
    repeat (constructor; [simpl; intuition congruence|]); constructor.
Qed.

Lemma resolvedActionTypes_single (s : Shape) :
  resolvedActionTypes [s]
  = Js.sort byEnumerationOrder
      (Js.JSet.of_array action_eqb (getContextBarActionTypes (type s))).
Proof. reflexivity. Qed.

(** * The resolver *)

(** C1. For a non-empty list of shapes the resolver returns exactly the
    actions that the table assigns to every shape of the list, without the
    single-shape-only actions when the list has more than one shape, in the
    order of [contextBarActionTypes]. *)
Theorem resolver_returns_applicable_actions (shapes : list Shape) :
  shapes <> [] ->
  resolvedActionTypes shapes = Spec.actionsFor shapes
  /\ getContextBarActionsForTypes shapes
     = map (mapping_get contextBarActionMapping) (Spec.actionsFor shapes).
Proof.
  intros H. split.
  - now apply resolvedActionTypes_actionsFor.
  - now apply getContextBarActionsForTypes_actionsFor.
Qed.

Lemma resolver_returns_applicable_actions_witness :
  resolvedActionTypes [shapeOfType "text"; shapeOfType "line"]
  = Spec.actionsFor [shapeOfType "text"; shapeOfType "line"]
  /\ getContextBarActionsForTypes [shapeOfType "text"; shapeOfType "line"]
     = map (mapping_get contextBarActionMapping)
         (Spec.actionsFor [shapeOfType "text"; shapeOfType "line"]).
Proof.
  apply (@resolver_returns_applicable_actions [shapeOfType "text"; shapeOfType "line"]).
  discriminate.
Defined.

(** C3. A selection of more than one shape never resolves to a
    single-shape-only action ([Edit], [YoutubeLink], [OpenPage]); one
    [logseq-portal] shape resolves to a result with [Edit] and [OpenPage],
    two [logseq-portal] shapes to a result without them. *)
Theorem no_single_shape_action_for_many :
  (forall (shapes : list Shape) (a : ContextBarActionType),
      (1 < List.length shapes)%nat ->
      In a singleShapeActions ->
      ~ In a (resolvedActionTypes shapes)
      /\ ~ In (mapping_get contextBarActionMapping a) (getContextBarActionsForTypes shapes))
  /\ (forall p, type p = "logseq-portal" ->
        In (Some EditAction) (getContextBarActionsForTypes [p])
        /\ In (Some OpenPageAction) (getContextBarActionsForTypes [p]))
  /\ (forall p q, type p = "logseq-portal" -> type q = "logseq-portal" ->
        ~ In (Some EditAction) (getContextBarActionsForTypes [p; q])
        /\ ~ In (Some OpenPageAction) (getContextBarActionsForTypes [p; q])).
Proof.
  split; [|split].
  - intros shapes a Hlen Ha.
    assert (Hgen : ~ In a (resolvedActionTypes shapes)).
    { rewrite resolvedActionTypes_actionsFor
        by (destruct shapes; [simpl in Hlen; lia | discriminate]).
      unfold Spec.actionsFor. rewrite filter_In. intros [_ Happ].
      unfold Spec.applicable in Happ. apply Nat.ltb_lt in Hlen. rewrite Hlen in Happ.
      apply andb_true_iff in Happ. destruct Happ as [_ Hs].
      apply includes_In in Ha. unfold Spec.singleShapeOnly in Hs. now rewrite Ha in Hs. }
    split; [exact Hgen | now rewrite In_getContextBarActionsForTypes].
  - intros p Hp. unfold getContextBarActionsForTypes, resolvedActionTypes.
    cbn [map tl]. rewrite Hp. vm_compute. tauto.
  - intros p q Hp Hq. unfold getContextBarActionsForTypes, resolvedActionTypes.
    cbn [map tl]. rewrite Hp, Hq. vm_compute.
    split; intros H; repeat (destruct H as [H | H]; [discriminate H|]); exact H.
Qed.

Lemma no_single_shape_action_for_many_witness :
  (~ In OpenPage
       (resolvedActionTypes [shapeOfType "logseq-portal"; shapeOfType "logseq-portal"])
   /\ ~ In (mapping_get contextBarActionMapping OpenPage)
          (getContextBarActionsForTypes
             [shapeOfType "logseq-portal"; shapeOfType "logseq-portal"]))
  /\ (In (Some EditAction) (getContextBarActionsForTypes [shapeOfType "logseq-portal"])
      /\ In (Some OpenPageAction) (getContextBarActionsForTypes [shapeOfType "logseq-portal"])).
Proof.
  split.
  - apply (proj1 no_single_shape_action_for_many
             [shapeOfType "logseq-portal"; shapeOfType "logseq-portal"] OpenPage).
    + simpl. lia.
    + simpl. tauto.
  - apply (proj1 (proj2 no_single_shape_action_for_many) (shapeOfType "logseq-portal")).
    reflexivity.
Defined.

(** C4. The resolver lists actions in the order of the enumeration
    [contextBarActionTypes], leaving some out, and the result does not depend
    on the order of the shapes in the selection. *)
Theorem resolver_order_is_enumeration_order (shapes shapes' : list Shape) :
  Permutation shapes shapes' ->
  subsequence (resolvedActionTypes shapes) contextBarActionTypes
  /\ subsequence (getContextBarActionsForTypes shapes)
       (map (mapping_get contextBarActionMapping) contextBarActionTypes)
  /\ getContextBarActionsForTypes shapes = getContextBarActionsForTypes shapes'.
Proof.
  intros Hperm.
  assert (Hsub : subsequence (resolvedActionTypes shapes) contextBarActionTypes).
  { destruct shapes as [|s rest]; [apply subsequence_nil|].
    rewrite resolvedActionTypes_actionsFor by discriminate.
    apply filter_subsequence. }
  split; [exact Hsub | split].
  - now apply map_subsequence.
  - destruct shapes as [|s rest].
    + apply Permutation_nil in Hperm. now subst.
    + assert (shapes' <> []).
      { intros ->. apply Permutation_sym, Permutation_nil in Hperm. discriminate. }
      rewrite !getContextBarActionsForTypes_actionsFor by (assumption || discriminate).
      f_equal. apply filter_ext. intros a. now apply applicable_Permutation.
Qed.

Lemma resolver_order_is_enumeration_order_witness :
  subsequence (resolvedActionTypes [shapeOfType "line"; shapeOfType "text"])
    contextBarActionTypes
  /\ subsequence (getContextBarActionsForTypes [shapeOfType "line"; shapeOfType "text"])
       (map (mapping_get contextBarActionMapping) contextBarActionTypes)
  /\ getContextBarActionsForTypes [shapeOfType "line"; shapeOfType "text"]
     = getContextBarActionsForTypes [shapeOfType "text"; shapeOfType "line"].
Proof.
  apply (@resolver_order_is_enumeration_order
           [shapeOfType "line"; shapeOfType "text"]
           [shapeOfType "text"; shapeOfType "line"]).
  apply perm_swap.
Defined.

(** C5. An empty selection resolves to nothing; a shape whose type the table
    does not list contributes no action, and a selection that holds such a
    shape resolves to nothing. *)
Theorem resolver_boundary_inputs :
  getContextBarActionsForTypes [] = []
  /\ (forall (shapes : list Shape) (s : Shape),
        In s shapes ->
        lookup shapeMapping (type s) = None ->
        getContextBarActionTypes (type s) = []
        /\ getContextBarActionsForTypes shapes = []).
Proof.
  split; [reflexivity|].
  intros shapes s Hin Hnone. split.
  - rewrite getContextBarActionTypes_lookup. now rewrite Hnone.
  - rewrite getContextBarActionsForTypes_actionsFor by (intros ->; destruct Hin).
    unfold Spec.actionsFor. rewrite filter_none; [reflexivity|].
    intros a _. unfold Spec.applicable.
    assert (forallb (fun s0 => Spec.assigns s0 a) shapes = false) as ->; [|reflexivity].
    apply not_true_is_false. rewrite forallb_forall. intros H.
    specialize (H s Hin). unfold Spec.assigns in H. rewrite Hnone in H. discriminate.
Qed.

Lemma resolver_boundary_inputs_witness :
  getContextBarActionTypes (type (shapeOfType "image")) = []
  /\ getContextBarActionsForTypes [shapeOfType "box"; shapeOfType "image"] = [].
Proof.
  apply (proj2 resolver_boundary_inputs
           [shapeOfType "box"; shapeOfType "image"] (shapeOfType "image")).
  - simpl. tauto.
  - reflexivity.
Defined.

(** C7. For one selected shape whose type has action list [L] in the table,
    the resolver returns the actions of [L], none added and none dropped, in
    the order of the enumeration. *)
Theorem single_shape_resolves_to_its_list (s : Shape) (L : list ContextBarActionType) :
  lookup shapeMapping (type s) = Some L ->
  Permutation (resolvedActionTypes [s]) L
  /\ StronglySorted before (resolvedActionTypes [s])
  /\ getContextBarActionsForTypes [s]
     = map (mapping_get contextBarActionMapping) (resolvedActionTypes [s]).
Proof.
  intros HL. pose proof (shapeMapping_NoDup _ HL) as Hnd.
  assert (E : resolvedActionTypes [s] = Js.sort byEnumerationOrder L).
  { rewrite resolvedActionTypes_single, getContextBarActionTypes_lookup, HL.
    now rewrite of_array_NoDup_id. }
  split; [|split; [|reflexivity]]; rewrite E.
  - apply sort_perm.
  - apply sorted_NoDup_strict; [apply sort_sorted|].
    eapply Permutation_NoDup; [symmetry; apply sort_perm | assumption].
Qed.

Lemma single_shape_resolves_to_its_list_witness :
  Permutation (resolvedActionTypes [shapeOfType "text"])
    [Edit; Swatch; ScaleLevel; AutoResizing; TextStyle]
  /\ StronglySorted before (resolvedActionTypes [shapeOfType "text"])
  /\ getContextBarActionsForTypes [shapeOfType "text"]
     = map (mapping_get contextBarActionMapping) (resolvedActionTypes [shapeOfType "text"]).
Proof.
  apply (@single_shape_resolves_to_its_list (shapeOfType "text")
           [Edit; Swatch; ScaleLevel; AutoResizing; TextStyle]).
  reflexivity.
Defined.

Example single_text_shape :
  resolvedActionTypes [shapeOfType "text"]
  = [Edit; AutoResizing; Swatch; ScaleLevel; TextStyle].
Proof. reflexivity. Qed.

(** C8. One box and one ellipse resolve to [Swatch; NoFill; StrokeType], in
    that order; one box and one line resolve to [Swatch]. *)
Theorem example_selections :
  (forall b e, type b = "box" -> type e = "ellipse" ->
     resolvedActionTypes [b; e] = [Swatch; NoFill; StrokeType]
     /\ getContextBarActionsForTypes [b; e]
        = [Some SwatchAction; Some NoFillAction; Some StrokeTypeAction])
  /\ (forall b l, type b = "box" -> type l = "line" ->
        resolvedActionTypes [b; l] = [Swatch]
        /\ getContextBarActionsForTypes [b; l] = [Some SwatchAction]).
Proof.
  split; intros x y Hx Hy;
    unfold getContextBarActionsForTypes, resolvedActionTypes;
    cbn [map tl]; rewrite Hx, Hy; split; reflexivity.
Qed.

Lemma example_selections_witness :
  (resolvedActionTypes [shapeOfType "box"; shapeOfType "ellipse"]
   = [Swatch; NoFill; StrokeType]
   /\ getContextBarActionsForTypes [shapeOfType "box"; shapeOfType "ellipse"]
      = [Some SwatchAction; Some NoFillAction; Some StrokeTypeAction])
  /\ (resolvedActionTypes [shapeOfType "box"; shapeOfType "line"] = [Swatch]
      /\ getContextBarActionsForTypes [shapeOfType "box"; shapeOfType "line"]
         = [Some SwatchAction]).
Proof.
  split.
  - apply (proj1 example_selections (shapeOfType "box") (shapeOfType "ellipse"));
      reflexivity.
  - apply (proj2 example_selections (shapeOfType "box") (shapeOfType "line"));
      reflexivity.
Defined.

(** * The widgets *)

(** A widget the resolver mounts finds every selected shape among its
    matching shapes. *)
Lemma resolved_action_supported (selected : list Shape) (a : ContextBarActionType) :
  In a (resolvedActionTypes selected) ->
  selected <> [] /\ forall s, In s selected -> supportsAction s a = true.
Proof.
  intros H. destruct selected as [|s0 rest]; [destruct H|].
  split; [discriminate|].
  rewrite resolvedActionTypes_actionsFor in H by discriminate.
  unfold Spec.actionsFor in H. apply filter_In in H. destruct H as [_ H].
  unfold Spec.applicable in H. apply andb_true_iff in H. destruct H as [H _].
  rewrite forallb_forall in H. exact H.
Qed.

(** C10. When every shape of a non-empty selection has a type whose list in
    the table contains the action, [filterShapeByAction] returns the whole
    selection, so its first element is a shape. *)
Theorem filterShapeByAction_keeps_supported_selection
  (a : ContextBarActionType) (selected : list Shape) :
  selected <> [] ->
  (forall s, In s selected ->
     exists actions, lookup shapeMapping (type s) = Some actions /\ In a actions) ->
  filterShapeByAction selected a = selected
  /\ filterShapeByAction selected a <> []
  /\ exists shape, firstShape (filterShapeByAction selected a) = Some shape
                   /\ firstShape selected = Some shape.
Proof.
  intros Hne Hall.
  assert (E : filterShapeByAction selected a = selected).
  { apply filter_all. intros s Hs. destruct (Hall s Hs) as [actions [Hl Ha]].
    unfold supportsAction. rewrite Hl. now apply includes_In. }
  rewrite E. split; [reflexivity | split; [assumption|]].
  destruct selected as [|s rest]; [congruence|]. now exists s.
Qed.

Lemma filterShapeByAction_keeps_supported_selection_witness :
  filterShapeByAction [shapeOfType "text"; shapeOfType "html"] ScaleLevel
  = [shapeOfType "text"; shapeOfType "html"]
  /\ filterShapeByAction [shapeOfType "text"; shapeOfType "html"] ScaleLevel <> []
  /\ exists shape,
      firstShape (filterShapeByAction [shapeOfType "text"; shapeOfType "html"] ScaleLevel)
      = Some shape
      /\ firstShape [shapeOfType "text"; shapeOfType "html"] = Some shape.
Proof.
  apply (@filterShapeByAction_keeps_supported_selection ScaleLevel
           [shapeOfType "text"; shapeOfType "html"]).
  - discriminate.
  - intros s [<- | [<- | []]]; eexists; (split; [reflexivity | simpl; tauto]).
Defined.

(** ** Display values *)

Lemma all_equal_not_disagree (A : Type) (prop : Shape -> A) (c : A) (shapes : list Shape) :
  (forall s, In s shapes -> prop s = c) -> ~ disagree prop shapes.
Proof.
  intros H [s1 [s2 [H1 [H2 Hne]]]]. apply Hne.
  now rewrite (H s1 H1), (H s2 H2).
Qed.

Lemma every_false_of_disagree (p : Shape -> bool) (shapes : list Shape) :
  disagree p shapes -> Js.every p shapes = false.
Proof.
  intros Hd. destruct (Js.every p shapes) eqn:E; [|reflexivity].
  unfold Js.every in E. rewrite forallb_forall in E.
  exfalso. exact (@all_equal_not_disagree _ p true shapes E Hd).
Qed.

Lemma every_eqb_false_of_disagree (prop : Shape -> string) (c : string) (shapes : list Shape) :
  disagree prop shapes -> Js.every (fun s => String.eqb (prop s) c) shapes = false.
Proof.
  intros Hd. destruct (Js.every _ shapes) eqn:E; [|reflexivity].
  unfold Js.every in E. rewrite forallb_forall in E.
  exfalso. apply (@all_equal_not_disagree _ prop c shapes); [|assumption].
  intros s Hs. now apply String.eqb_eq, E.
Qed.

Lemma two_members_length (A : Type) (l : list A) (x y : A) :
  In x l -> In y l -> x <> y -> (1 < List.length l)%nat.
Proof.
  destruct l as [|a [|b l]]; simpl; intros Hx Hy Hne; [tauto | | lia].
  destruct Hx as [<- | []], Hy as [<- | []]. congruence.
Qed.

Lemma disagree_many_values (prop : Shape -> string) (shapes : list Shape) :
  disagree prop shapes ->
  (1 <? Js.JSet.size (Js.JSet.of_array String.eqb (map prop shapes)))%nat = true.
Proof.
  intros [s1 [s2 [H1 [H2 Hne]]]]. apply Nat.ltb_lt. unfold Js.JSet.size.
  apply (@two_members_length _ _ (prop s1) (prop s2)); [| | assumption];
    apply (@JSet_of_array_In _ String.eqb String.eqb_eq); now apply in_map.
Qed.

(** C2, as stated, fails: the colour input shows the colour of the first
    matching shape, here the red of the first box, although the second box
    is blue. *)
Lemma swatch_shows_first_shape_on_disagreement :
  ~ showsNeutral shownColor (SwatchAction_value [redBox; blueBox])
      (filterShapeByAction [redBox; blueBox] Swatch).
Proof.
  intros H.
  assert (Hd : disagree shownColor (filterShapeByAction [redBox; blueBox] Swatch)).
  { exists redBox, blueBox. change (filterShapeByAction [redBox; blueBox] Swatch)
      with [redBox; blueBox].
    split; [now left | split; [right; now left|]].
    vm_compute. discriminate. }
  apply (H Hd redBox).
  - change (filterShapeByAction [redBox; blueBox] Swatch) with [redBox; blueBox]. now left.
  - reflexivity.
Qed.

Lemma every_true_iff (p : Shape -> bool) (shapes : list Shape) :
  Js.every p shapes = true <-> forall s, In s shapes -> p s = true.
Proof. apply forallb_forall. Qed.

Lemma every_false_iff (p : Shape -> bool) (shapes : list Shape) :
  Js.every p shapes = false <-> exists s, In s shapes /\ p s = false.
Proof.
  unfold Js.every. induction shapes as [|x shapes IH]; simpl.
  - split; [discriminate | intros [s [[] _]]].
  - rewrite andb_false_iff, IH. split.
    + intros [H | [s [Hs Hf]]]; [exists x | exists s]; tauto.
    + intros [s [[<- | Hs] Hf]]; [now left | right; now exists s].
Qed.

Lemma isArrow_iff (d : option Decoration) : isArrow d = true <-> d = Some Arrow.
Proof. destruct d as [[]|]; simpl; split; congruence. Qed.

Lemma arrow_heads_In (a b : bool) (x : string) :
  In x ((if a then ["start"] else []) ++ (if b then ["end"] else []))
  <-> (x = "start" /\ a = true) \/ (x = "end" /\ b = true).
Proof.
  destruct a, b; simpl; split; intros H;
    repeat match goal with
           | H : _ \/ _ |- _ => destruct H
           | H : _ /\ _ |- _ => destruct H
           | H : False |- _ => destruct H
           end;
    subst; auto; try discriminate.
Qed.

(** C2, amended. When the matching shapes disagree on the stroke type, the
    stroke-type widget shows ['mixed']; when they disagree on the scale
    level, the scale-level select shows the empty choice.  The other widgets
    have no mixed state.  The colour input shows the colour of the first
    matching shape, whatever the others hold.  The auto-resize, fill and
    italic toggles are pressed exactly when every matching shape has the flag
    set, so they are not pressed when the shapes disagree on it.  The bold
    toggle is pressed exactly when every matching shape has a font weight
    above 500, whether or not the weights are equal.  The view-mode widget
    selects ['1'] exactly when every matching shape is collapsed and ['0']
    exactly when one is not, so also when they disagree.  The arrow widget
    lists ['start'] (['end']) exactly when every matching shape has a start
    (end) arrow, so it does not list a head on which they disagree. *)
Theorem display_values_on_disagreement (selected : list Shape) :
  (disagree strokeType (filterShapeByAction selected StrokeType) ->
   StrokeTypeAction_value selected = "mixed")
  /\ (disagree scaleLevel (filterShapeByAction selected ScaleLevel) ->
      ScaleLevelAction_scaleLevel selected = Some EmptyString)
  /\ (forall s rest, filterShapeByAction selected Swatch = s :: rest ->
        SwatchAction_value selected = Some (shownColor s))
  /\ ((AutoResizingAction_pressed selected = true
       <-> forall s, In s (filterShapeByAction selected AutoResizing) ->
                     isAutoResizing s = true)
      /\ (disagree isAutoResizing (filterShapeByAction selected AutoResizing) ->
          AutoResizingAction_pressed selected = false))
  /\ ((NoFillAction_noFill selected = true
       <-> forall s, In s (filterShapeByAction selected NoFill) -> noFill s = true)
      /\ (disagree noFill (filterShapeByAction selected NoFill) ->
          NoFillAction_noFill selected = false))
  /\ ((TextStyleAction_italic selected = true
       <-> forall s, In s (filterShapeByAction selected TextStyle) -> italic s = true)
      /\ (disagree italic (filterShapeByAction selected TextStyle) ->
          TextStyleAction_italic selected = false))
  /\ (TextStyleAction_bold selected = true
      <-> forall s, In s (filterShapeByAction selected TextStyle) ->
                    (500 < fontWeight s)%Z)
  /\ ((LogseqPortalViewModeAction_value selected = "1"
       <-> forall s, In s (filterShapeByAction selected LogseqPortalViewMode) ->
                     collapsed s = true)
      /\ (LogseqPortalViewModeAction_value selected = "0"
          <-> exists s, In s (filterShapeByAction selected LogseqPortalViewMode)
                        /\ collapsed s = false)
      /\ (disagree collapsed (filterShapeByAction selected LogseqPortalViewMode) ->
          LogseqPortalViewModeAction_value selected = "0"))
  /\ ((In "start" (ArrowModeAction_value selected)
       <-> forall s, In s (filterShapeByAction selected ArrowMode) ->
                     decorations_start s = Some Arrow)
      /\ (In "end" (ArrowModeAction_value selected)
          <-> forall s, In s (filterShapeByAction selected ArrowMode) ->
                        decorations_end s = Some Arrow)
      /\ (disagree decorations_start (filterShapeByAction selected ArrowMode) ->
          ~ In "start" (ArrowModeAction_value selected))
      /\ (disagree decorations_end (filterShapeByAction selected ArrowMode) ->
          ~ In "end" (ArrowModeAction_value selected))).
Proof.
  assert (Hstart : In "start" (ArrowModeAction_value selected)
                   <-> forall s, In s (filterShapeByAction selected ArrowMode) ->
                                 decorations_start s = Some Arrow).
  { unfold ArrowModeAction_value. cbv zeta.
    rewrite arrow_heads_In, !every_true_iff. split.
    - intros [[_ H] | [E _]]; [|discriminate E].
      intros s Hs. now apply isArrow_iff, H.
    - intros H. left. split; [reflexivity|]. intros s Hs. now apply isArrow_iff, H. }
  assert (Hend : In "end" (ArrowModeAction_value selected)
                 <-> forall s, In s (filterShapeByAction selected ArrowMode) ->
                               decorations_end s = Some Arrow).
  { unfold ArrowModeAction_value. cbv zeta.
    rewrite arrow_heads_In, !every_true_iff. split.
    - intros [[E _] | [_ H]]; [discriminate E|].
      intros s Hs. now apply isArrow_iff, H.
    - intros H. right. split; [reflexivity|]. intros s Hs. now apply isArrow_iff, H. }
  repeat match goal with |- _ /\ _ => split end.
  - intros Hd. unfold StrokeTypeAction_value. cbv zeta.
    now rewrite !every_eqb_false_of_disagree.
  - intros Hd. unfold ScaleLevelAction_scaleLevel. cbv zeta.
    now rewrite disagree_many_values.
  - intros s rest E. unfold SwatchAction_value. now rewrite E.
  - apply every_true_iff.
  - intros Hd. now apply every_false_of_disagree.
  - apply every_true_iff.
  - intros Hd. now apply every_false_of_disagree.
  - apply every_true_iff.
  - intros Hd. now apply every_false_of_disagree.
  - unfold TextStyleAction_bold. rewrite every_true_iff.
    split; intros H s Hs; apply Z.ltb_lt; now apply H.
  - unfold LogseqPortalViewModeAction_value. rewrite <- every_true_iff.
    destruct (Js.every collapsed _); split; congruence.
  - unfold LogseqPortalViewModeAction_value. rewrite <- every_false_iff.
    destruct (Js.every collapsed _); split; congruence.
  - intros Hd. unfold LogseqPortalViewModeAction_value.
    now rewrite every_false_of_disagree.
  - exact Hstart.
  - exact Hend.
  - intros Hd Hin. apply (@all_equal_not_disagree _ decorations_start (Some Arrow)
                            (filterShapeByAction selected ArrowMode)); [|exact Hd].
    now apply Hstart.
  - intros Hd Hin. apply (@all_equal_not_disagree _ decorations_end (Some Arrow)
                            (filterShapeByAction selected ArrowMode)); [|exact Hd].
    now apply Hend.
Qed.

Lemma display_values_on_disagreement_witness :
  StrokeTypeAction_value [redBox; dashedBox] = "mixed"
  /\ SwatchAction_value [redBox; blueBox] = Some "#ff0000".
Proof.
  split.
  - apply (proj1 (display_values_on_disagreement [redBox; dashedBox])).
    exists redBox, dashedBox. simpl. repeat split; auto. discriminate.
  - apply (proj1 (proj2 (proj2 (display_values_on_disagreement [redBox; blueBox])))
             redBox [blueBox]).
    reflexivity.
Defined.

(** Two texts of weights 600 and 700 disagree on the weight; the bold
    toggle is pressed. *)
Example bold_pressed_for_unequal_weights :
  disagree fontWeight (filterShapeByAction [semiBoldLabel; boldLabel] TextStyle)
  /\ TextStyleAction_bold [semiBoldLabel; boldLabel] = true.
Proof.
  split; [|reflexivity].
  exists semiBoldLabel, boldLabel.
  change (filterShapeByAction [semiBoldLabel; boldLabel] TextStyle)
    with [semiBoldLabel; boldLabel].
  split; [now left | split; [right; now left|]]. vm_compute. discriminate.
Qed.

(** ** Change handlers *)

Lemma somes_app (A : Type) (l m : list (option A)) : somes (l ++ m) = somes l ++ somes m.
Proof.
  induction l as [|[x|] l IH]; simpl; [reflexivity | now rewrite IH | assumption].
Qed.

Lemma touched_app (l m : list Call) : touched (l ++ m) = touched l ++ touched m.
Proof. unfold touched. now rewrite map_app, somes_app. Qed.

Lemma writtenValues_app (l m : list Call) :
  writtenValues (l ++ m) = writtenValues l ++ writtenValues m.
Proof. unfold writtenValues. now rewrite map_app, somes_app. Qed.

Lemma persists_app (l m : list Call) : persists (l ++ m) = persists l ++ persists m.
Proof. unfold persists. now rewrite flat_map_app. Qed.

Section ForEachShape.
Variable f : Shape -> list Call.

(** Each round calls the shape at hand and nothing else. *)
Hypothesis f_touches : forall s x, In x (touched (f s)) <-> x = s.
Hypothesis f_no_persist : forall s, persists (f s) = [].

Lemma forEachShape_touched (shapes : list Shape) (x : Shape) :
  In x (touched (forEachShape shapes f)) <-> In x shapes.
Proof.
  unfold forEachShape. induction shapes as [|s shapes IH]; simpl; [tauto|].
  rewrite touched_app, in_app_iff, IH, f_touches. intuition.
Qed.

Lemma forEachShape_persists (shapes : list Shape) :
  persists (forEachShape shapes f) = [].
Proof.
  unfold forEachShape. induction shapes as [|s shapes IH]; simpl; [reflexivity|].
  now rewrite persists_app, IH, f_no_persist.
Qed.

Lemma forEachShape_writtenValues (g : Shape -> bool) (w : Written) (shapes : list Shape) :
  (forall s, writtenValues (f s) = if g s then [(s, w)] else []) ->
  writtenValues (forEachShape shapes f) = map (fun s => (s, w)) (filter g shapes).
Proof.
  intros Hg. unfold forEachShape. induction shapes as [|s shapes IH]; simpl; [reflexivity|].
  rewrite writtenValues_app, IH, Hg. now destruct (g s).
Qed.
End ForEachShape.

Lemma flat_map_singleton (A B : Type) (g : A -> B) (l : list A) :
  flat_map (fun x => [g x]) l = map g l.
Proof. induction l as [|x l IH]; simpl; [reflexivity | now rewrite IH]. Qed.

Lemma in_filterShapeByAction (selected : list Shape) (a : ContextBarActionType) (s : Shape) :
  In s (filterShapeByAction selected a) <-> In s selected /\ supportsAction s a = true.
Proof. apply filter_In. Qed.

(** ** The debounced colour input *)

Section DebounceFacts.
Variables Env Arg Effect : Type.
Variable fn : Env -> list Effect.
Variable immediateFn : Arg -> Env -> Env.
Variable ms : nat.

Let feed (e : Env) (events : list (nat * Arg)) : Env :=
  fold_left (fun e ev => immediateFn (snd ev) e) events e.

(** While the calls keep coming before the timer is due, the timer is
    re-armed and the delayed callback does not run. *)
Lemma run_closeAfter (events : list (nat * Arg)) (prev : nat) (e : Env) :
  Debounce.closeAfter ms prev events ->
  exists due,
    Debounce.run fn immediateFn ms events (Debounce.mkState e (Some (prev + ms)%nat))
    = (Debounce.mkState (feed e events) (Some due), []).
Proof.
  revert prev e. induction events as [|[now arg] events IH]; intros prev e H; simpl.
  - now exists (prev + ms)%nat.
  - destruct H as [Hle [Hlt Hrest]].
    unfold Debounce.call, Debounce.expire. cbn [Debounce.timeoutId Debounce.env].
    assert ((prev + ms <=? now)%nat = false) as -> by (apply Nat.leb_gt; lia).
    cbn [Debounce.env].
    destruct (IH now (immediateFn arg e) Hrest) as [due Hrun]. rewrite Hrun.
    now exists due.
Qed.

(** A burst runs the delayed callback once, after its last call, on what
    the immediate callbacks left behind. *)
Lemma play_burst (events : list (nat * Arg)) (e : Env) :
  Debounce.burst ms events ->
  Debounce.play fn immediateFn ms events (Debounce.mkState e None)
  = fn (feed e events).
Proof.
  destruct events as [|[now arg] events]; simpl; [tauto|]. intros H.
  unfold Debounce.play. cbn [Debounce.run].
  unfold Debounce.call at 1, Debounce.expire. cbn [Debounce.timeoutId Debounce.env].
  destruct (run_closeAfter events now (immediateFn arg e) H) as [due Hrun].
  rewrite Hrun. reflexivity.
Qed.
End DebounceFacts.

Lemma feed_latest (events : list (nat * string)) (e : string) :
  events <> [] ->
  fold_left (fun (e : string) (ev : nat * string) => snd ev) events e = latest events.
Proof.
  unfold latest. destruct events as [|ev events]; [congruence|]. reflexivity.
Qed.

Lemma persists_updates (p : Patch) (shapes : list Shape) :
  persists (map (fun s => Update s p) shapes) = [].
Proof. induction shapes as [|s l IH]; [reflexivity | exact IH]. Qed.

(** C6. For a burst of colour changes, each less than 100 ms after the one
    before, the debounced handler writes only the latest colour, once, to
    each matching shape and then flushes once, marking the flush
    ephemeral. *)
Theorem swatch_burst_commits_latest_once (selected : list Shape)
  (events : list (nat * string)) :
  Debounce.burst 100 events ->
  SwatchAction_handleChange selected events
  = map (fun s => Update s (Patch_fill (latest events)))
      (filterShapeByAction selected Swatch)
    ++ [Persist true]
  /\ persists (SwatchAction_handleChange selected events) = [true].
Proof.
  intros H.
  assert (E : SwatchAction_handleChange selected events
              = map (fun s => Update s (Patch_fill (latest events)))
                  (filterShapeByAction selected Swatch)
                ++ [Persist true]).
  { unfold SwatchAction_handleChange. rewrite play_burst by assumption.
    rewrite feed_latest by (intros ->; exact H).
    unfold SwatchAction_handler, forEachShape. now rewrite flat_map_singleton. }
  split; [exact E|]. rewrite E, persists_app.
  now rewrite persists_updates.
Qed.

Lemma swatch_burst_commits_latest_once_witness :
  SwatchAction_handleChange [redBox; label]
    [(0, "#111111"); (40, "#222222"); (130, "#333333")]%nat
  = map (fun s => Update s (Patch_fill
                              (latest [(0, "#111111"); (40, "#222222"); (130, "#333333")]%nat)))
      (filterShapeByAction [redBox; label] Swatch)
    ++ [Persist true]
  /\ persists (SwatchAction_handleChange [redBox; label]
                 [(0, "#111111"); (40, "#222222"); (130, "#333333")]%nat) = [true].
Proof.
  apply (@swatch_burst_commits_latest_once [redBox; label]
           [(0, "#111111"); (40, "#222222"); (130, "#333333")]%nat).
  simpl. lia.
Defined.

Example swatch_burst_of_three :
  SwatchAction_handleChange [redBox; label]
    [(0, "#111111"); (40, "#222222"); (130, "#333333")]%nat
  = [Update redBox (Patch_fill "#333333"); Update label (Patch_fill "#333333");
     Persist true].
Proof. reflexivity. Qed.

(** Two changes more than 100 ms apart are two bursts: each is written and
    flushed. *)
Example swatch_two_bursts :
  SwatchAction_handleChange [redBox] [(0, "#111111"); (250, "#222222")]%nat
  = [Update redBox (Patch_fill "#111111"); Persist true;
     Update redBox (Patch_fill "#222222"); Persist true].
Proof. reflexivity. Qed.

(** ** Changes through mounted widgets *)

Lemma in_reached (c : Change) (shapes : list Shape) (s : Shape) :
  In s (reached c shapes) -> In s shapes.
Proof.
  destruct c; simpl; try tauto.
  destruct shapes as [|x shapes]; simpl; tauto.
Qed.

(** A burst makes the debounced handler of the colour input run the inner
    handler once, on the last value. *)
Lemma SwatchAction_handleChange_burst (selected : list Shape)
  (events : list (nat * string)) :
  Debounce.burst 100 events ->
  SwatchAction_handleChange selected events
  = SwatchAction_handler selected (latest events).
Proof.
  intros H. unfold SwatchAction_handleChange. rewrite play_burst by assumption.
  now rewrite feed_latest by (intros ->; exact H).
Qed.

(** C9, as stated, fails: toggling auto resize on a text shape resets its
    bounds and hands it no value, although its type supports the action. *)
Lemma auto_resizing_skips_update_on_text :
  ~ updatesMatchingThenPersists [label] (ChangeAutoResizing true).
Proof.
  intros [calls [e [Hrun [_ [Hw _]]]]].
  change (Some ([OnResetBounds label true] ++ [Persist false])
          = Some (calls ++ [Persist e])) in Hrun.
  injection Hrun as Hrun.
  apply (@app_inj_tail _ [OnResetBounds label true] calls) in Hrun.
  destruct Hrun as [<- _].
  change ([] = [(label, WrotePatch (Patch_isAutoResizing true))]) in Hw.
  discriminate Hw.
Qed.

Ltac one_shape_per_round :=
  intros; cbn [receivesValue valueOf];
  repeat match goal with
         | |- context [if String.eqb ?a ?b then _ else _] => destruct (String.eqb a b)
         end;
  (reflexivity || (simpl; intuition congruence)).

Ltac walks_matching :=
  eexists;
  split; [reflexivity|];
  split; [apply forEachShape_persists; one_shape_per_round|];
  split; [intros s; apply forEachShape_touched; one_shape_per_round|];
  cbn [reached];
  apply forEachShape_writtenValues; one_shape_per_round.

(** What a change through a mounted widget calls. *)
Lemma runChange_walks (first current : list Shape) (c : Change) :
  renders (actionOf c) first = true ->
  renders (actionOf c) current = true ->
  (builtOnce c = true -> first = current) ->
  (forall events, c = ChangeSwatch events -> Debounce.burst 100 events) ->
  exists calls,
    runChange first current c = Some (calls ++ [Persist (ephemeralOf c)])
    /\ persists calls = []
    /\ (forall s, In s (touched calls)
                  <-> In s (reached c (filterShapeByAction current (actionOf c))))
    /\ writtenValues calls
       = map (fun s => (s, valueOf c))
           (filter (receivesValue c)
              (reached c (filterShapeByAction current (actionOf c)))).
Proof.
  intros Hfirst Hcurrent Honce Hburst.
  unfold runChange. rewrite Hfirst, Hcurrent. cbn [andb].
  destruct c as [v|v|v|v|v|events|v|v|v|v]; cbn [actionOf ephemeralOf] in *;
    try (specialize (Honce eq_refl); subst first).
  - walks_matching.
  - walks_matching.
  - walks_matching.
  - unfold renders, YoutubeLinkAction_shape in *.
    destruct (filterShapeByAction current YoutubeLink) as [|shape rest];
      [discriminate Hcurrent|].
    exists [OnYoutubeLinkChange shape v]. simpl. intuition congruence.
  - unfold NoFillAction_handleChange. walks_matching.
  - rewrite SwatchAction_handleChange_burst by now apply Hburst.
    unfold SwatchAction_handler. walks_matching.
  - walks_matching.
  - walks_matching.
  - walks_matching.
  - walks_matching.
Qed.

(** C9, amended. Take a mounted widget: its first render and its latest
    render went through (the colour input, the scale-level select and the
    link input need a matching shape to render).  A change made through it
    calls exactly the shapes of the latest selection whose type supports the
    action of the widget (the link input: the first of them only), calls no
    selected shape whose type does not support it, and ends with exactly one
    flush of the canvas, ephemeral for the colour input only.  For the
    handlers that are built once (fill toggle, colour input, link input)
    this is stated while the selection is still that of the first render;
    for the colour input, whose handler is debounced, it is stated for one
    burst of inputs less than 100 ms apart, and the value is that of the last
    input.  Every shape called is handed the new value, by [update] or by
    its setter, except that the auto-resize toggle hands it to the
    [logseq-portal] shapes only: the other matching shapes are called and
    handed no value. *)
Theorem change_handlers_walk_matching_shapes (first current : list Shape) (c : Change) :
  renders (actionOf c) first = true ->
  renders (actionOf c) current = true ->
  (builtOnce c = true -> first = current) ->
  (forall events, c = ChangeSwatch events -> Debounce.burst 100 events) ->
  exists calls,
    runChange first current c = Some (calls ++ [Persist (ephemeralOf c)])
    /\ persists calls = []
    /\ (forall s, In s (touched calls)
                  <-> In s (reached c (filterShapeByAction current (actionOf c))))
    /\ writtenValues calls
       = map (fun s => (s, valueOf c))
           (filter (receivesValue c)
              (reached c (filterShapeByAction current (actionOf c))))
    /\ (forall s, In s current -> supportsAction s (actionOf c) = false ->
                  ~ In s (touched calls)).
Proof.
  intros Hfirst Hcurrent Honce Hburst.
  destruct (@runChange_walks first current c Hfirst Hcurrent Honce Hburst)
    as [calls [Hrun [Hp [Ht Hw]]]].
  exists calls.
  repeat match goal with |- _ /\ _ => split end; try assumption.
  intros s _ Hno Hin. apply Ht, in_reached, in_filterShapeByAction in Hin.
  destruct Hin as [_ Hyes]. congruence.
Qed.

Lemma change_handlers_walk_matching_shapes_witness :
  exists calls,
    runChange [redBox; label] [redBox; label]
      (ChangeSwatch [(0, "#111111"); (40, "#222222")]%nat)
    = Some (calls
            ++ [Persist (ephemeralOf (ChangeSwatch [(0, "#111111"); (40, "#222222")]%nat))])
    /\ persists calls = []
    /\ (forall s, In s (touched calls)
                  <-> In s (reached (ChangeSwatch [(0, "#111111"); (40, "#222222")]%nat)
                              (filterShapeByAction [redBox; label]
                                 (actionOf
                                    (ChangeSwatch [(0, "#111111"); (40, "#222222")]%nat)))))
    /\ writtenValues calls
       = map (fun s => (s, valueOf (ChangeSwatch [(0, "#111111"); (40, "#222222")]%nat)))
           (filter (receivesValue (ChangeSwatch [(0, "#111111"); (40, "#222222")]%nat))
              (reached (ChangeSwatch [(0, "#111111"); (40, "#222222")]%nat)
                 (filterShapeByAction [redBox; label]
                    (actionOf (ChangeSwatch [(0, "#111111"); (40, "#222222")]%nat)))))
    /\ (forall s, In s [redBox; label] ->
                  supportsAction s
                    (actionOf (ChangeSwatch [(0, "#111111"); (40, "#222222")]%nat)) = false ->
                  ~ In s (touched calls)).
Proof.
  apply (@change_handlers_walk_matching_shapes [redBox; label] [redBox; label]
           (ChangeSwatch [(0, "#111111"); (40, "#222222")]%nat)).
  - reflexivity.
  - reflexivity.
  - intros _. reflexivity.
  - intros events E. injection E as <-. simpl. lia.
Defined.

Example auto_resizing_on_label_and_box :
  runChange [label; redBox] [label; redBox] (ChangeAutoResizing true)
  = Some [OnResetBounds label true; Persist false].
Proof. reflexivity. Qed.

Example stroke_type_on_label_and_box :
  runChange [label; redBox] [label; redBox] (ChangeStrokeType "dashed")
  = Some [Update redBox (Patch_strokeType "dashed"); Persist false].
Proof. reflexivity. Qed.

(** A handler that is rebuilt by every render follows the selection; one
    that is built once keeps the shapes of the first render. *)
Example handlers_after_a_changed_selection :
  runChange [redBox] [blueBox] (ChangeStrokeType "dashed")
  = Some [Update blueBox (Patch_strokeType "dashed"); Persist false]
  /\ runChange [redBox] [blueBox] (ChangeNoFill true)
     = Some [Update redBox (Patch_noFill true); Persist false].
Proof. split; reflexivity. Qed.

(** Without a matching shape the link input does not render: there is no
    handler to run. *)
Example link_input_without_youtube_shape :
  renders YoutubeLink [redBox] = false
  /\ runChange [redBox] [redBox] (ChangeYoutubeLink "https://youtu.be/x") = None.
Proof. split; reflexivity. Qed.

(** * Further properties of the resolver *)

Lemma In_resolvedActionTypes (shapes : list Shape) (a : ContextBarActionType) :
  shapes <> [] ->
  (In a (resolvedActionTypes shapes) <-> Spec.applicable shapes a = true).
Proof.
  intros H. rewrite resolvedActionTypes_actionsFor by assumption.
  unfold Spec.actionsFor. rewrite filter_In. split; [tauto|].
  intros Ha. split; [apply In_contextBarActionTypes | assumption].
Qed.

Lemma In_resolvedActionTypes_single (s : Shape) (a : ContextBarActionType) :
  In a (resolvedActionTypes [s]) <-> supportsAction s a = true.
Proof.
  rewrite In_resolvedActionTypes by discriminate.
  unfold Spec.applicable. cbn [forallb List.length Nat.ltb Nat.leb].
  change (Spec.assigns s a) with (supportsAction s a).
  now rewrite !andb_true_r.
Qed.

Lemma supportsAction_In (s : Shape) (a : ContextBarActionType) :
  supportsAction s a = true <-> In a (getContextBarActionTypes (type s)).
Proof.
  rewrite <- includes_In, includes_getContextBarActionTypes. reflexivity.
Qed.

Lemma applicable_many (shapes : list Shape) (a : ContextBarActionType) :
  (1 < List.length shapes)%nat ->
  (Spec.applicable shapes a = true
   <-> (forall s, In s shapes -> supportsAction s a = true) /\ ~ In a singleShapeActions).
Proof.
  intros Hlen. unfold Spec.applicable. apply Nat.ltb_lt in Hlen. rewrite Hlen.
  rewrite andb_true_iff, forallb_forall, negb_true_iff.
  unfold Spec.singleShapeOnly. rewrite <- includes_In.
  destruct (Js.includes action_eqb singleShapeActions a); intuition congruence.
Qed.

Lemma many_not_nil (A : Type) (l : list A) : (1 < List.length l)%nat -> l <> [].
Proof. destruct l; simpl; [lia | discriminate]. Qed.

Lemma NoDup_map_injective (A B : Type) (f : A -> B) (l : list A) :
  (forall x y, f x = f y -> x = y) -> NoDup l -> NoDup (map f l).
Proof.
  intros Hinj. induction 1 as [|x l Hx Hl IH]; simpl; constructor; [|assumption].
  rewrite in_map_iff. intros [y [E Hy]]. apply Hinj in E. now subst.
Qed.

Lemma resolvedActionTypes_NoDup (shapes : list Shape) : NoDup (resolvedActionTypes shapes).
Proof.
  destruct shapes as [|s rest]; [constructor|].
  rewrite resolvedActionTypes_actionsFor by discriminate.
  apply NoDup_filter_keep. unfold contextBarActionTypes.
  repeat (constructor; [simpl; intuition discriminate|]). constructor.
Qed.

(** X1. A selection that holds two shapes whose types have no action in
    common resolves to nothing, whatever else is selected. *)
Theorem disjoint_types_resolve_to_nothing (shapes : list Shape) (s1 s2 : Shape) :
  In s1 shapes -> In s2 shapes ->
  (forall a, In a (getContextBarActionTypes (type s1)) ->
             ~ In a (getContextBarActionTypes (type s2))) ->
  getContextBarActionsForTypes shapes = [].
Proof.
  intros H1 H2 Hdisj.
  rewrite getContextBarActionsForTypes_actionsFor by (intros ->; destruct H1).
  unfold Spec.actionsFor. rewrite filter_none; [reflexivity|].
  intros a _. apply not_true_is_false. unfold Spec.applicable.
  rewrite andb_true_iff, forallb_forall. intros [Hall _].
  apply (Hdisj a); apply supportsAction_In; now apply Hall.
Qed.

Lemma disjoint_types_resolve_to_nothing_witness :
  getContextBarActionsForTypes [shapeOfType "box"; shapeOfType "text"; shapeOfType "html"] = [].
Proof.
  apply (@disjoint_types_resolve_to_nothing
           [shapeOfType "box"; shapeOfType "text"; shapeOfType "html"]
           (shapeOfType "box") (shapeOfType "html")).
  - simpl. tauto.
  - simpl. tauto.
  - intros a Ha Hb. simpl in Ha, Hb.
    destruct a; intuition discriminate.
Defined.

(** X2. For more than one shape, an action is offered exactly when every
    selected shape, selected alone, is offered it and it is not one of the
    single-shape actions. *)
Theorem many_shapes_offer_what_each_offers (shapes : list Shape)
  (a : ContextBarActionType) :
  (1 < List.length shapes)%nat ->
  (In a (resolvedActionTypes shapes)
   <-> (forall s, In s shapes -> In a (resolvedActionTypes [s]))
       /\ ~ In a singleShapeActions).
Proof.
  intros Hlen.
  rewrite In_resolvedActionTypes by now apply many_not_nil.
  rewrite applicable_many by assumption.
  split; intros [Hall Hs]; (split; [|assumption]); intros s Hin;
    apply In_resolvedActionTypes_single || apply <- In_resolvedActionTypes_single;
    now apply Hall.
Qed.

Lemma many_shapes_offer_what_each_offers_witness :
  In ScaleLevel (resolvedActionTypes [shapeOfType "text"; shapeOfType "html"])
  <-> (forall s, In s [shapeOfType "text"; shapeOfType "html"] ->
                 In ScaleLevel (resolvedActionTypes [s]))
      /\ ~ In ScaleLevel singleShapeActions.
Proof.
  apply (@many_shapes_offer_what_each_offers
           [shapeOfType "text"; shapeOfType "html"] ScaleLevel).
  simpl. lia.
Defined.

(** X3. For selections of more than one shape the result depends on the
    set of shape types only: how often a type occurs, and where, does not
    matter. *)
Theorem same_types_same_actions (l m : list Shape) :
  (1 < List.length l)%nat -> (1 < List.length m)%nat ->
  (forall t, In t (map type l) <-> In t (map type m)) ->
  getContextBarActionsForTypes l = getContextBarActionsForTypes m.
Proof.
  intros Hl Hm Hsame.
  rewrite !getContextBarActionsForTypes_actionsFor by now apply many_not_nil.
  f_equal. apply filter_ext. intros a. apply eq_iff_eq_true.
  rewrite !applicable_many by assumption.
  assert (Hiff : forall x y : list Shape,
             (forall t, In t (map type x) -> In t (map type y)) ->
             (forall s, In s y -> supportsAction s a = true) ->
             forall s, In s x -> supportsAction s a = true).
  { intros x y Hxy Hy s Hs.
    assert (Ht : In (type s) (map type y)) by (apply Hxy; now apply in_map).
    apply in_map_iff in Ht. destruct Ht as [s' [Et Hs']].
    specialize (Hy s' Hs'). unfold supportsAction in *. now rewrite <- Et. }
  split; intros [Hall Hs]; (split; [|assumption]).
  - apply (Hiff m l); [intros t; apply Hsame | assumption].
  - apply (Hiff l m); [intros t; apply Hsame | assumption].
Qed.

Lemma same_types_same_actions_witness :
  getContextBarActionsForTypes [shapeOfType "box"; shapeOfType "line"]
  = getContextBarActionsForTypes [redBox; shapeOfType "line"; blueBox; shapeOfType "line"].
Proof.
  apply (@same_types_same_actions [shapeOfType "box"; shapeOfType "line"]
           [redBox; shapeOfType "line"; blueBox; shapeOfType "line"]).
  - simpl. lia.
  - simpl. lia.
  - intros t. simpl. tauto.
Defined.

(** X4. Every entry of the result is a registered component, never the
    [undefined] of a failed look-up, and no component occurs twice. *)
Theorem resolved_components_defined_and_distinct (shapes : list Shape) :
  NoDup (getContextBarActionsForTypes shapes)
  /\ Forall (fun c => exists component, c = Some component)
       (getContextBarActionsForTypes shapes).
Proof.
  unfold getContextBarActionsForTypes. split.
  - apply NoDup_map_injective; [apply mapping_get_inj | apply resolvedActionTypes_NoDup].
  - apply Forall_forall. intros c Hc. apply in_map_iff in Hc.
    destruct Hc as [a [<- _]]. destruct (componentOf_total a) as [w Hw]. now exists w.
Qed.

(** X5. A widget that the resolver mounts matches every selected shape: its
    filter returns the selection itself, which is not empty, and holds one
    shape only when the action is a single-shape action. *)
Theorem mounted_widget_matches_whole_selection (selected : list Shape)
  (a : ContextBarActionType) :
  In a (resolvedActionTypes selected) ->
  filterShapeByAction selected a = selected
  /\ selected <> []
  /\ (In a singleShapeActions -> List.length selected = 1%nat).
Proof.
  intros H. destruct (resolved_action_supported _ _ H) as [Hne Hall].
  split; [now apply filter_all | split; [assumption|]].
  intros Hsingle.
  destruct selected as [|s [|s' rest]]; [congruence | reflexivity | exfalso].
  apply In_resolvedActionTypes in H; [|discriminate].
  apply applicable_many in H; [tauto | simpl; lia].
Qed.

Lemma mounted_widget_matches_whole_selection_witness :
  filterShapeByAction [shapeOfType "text"; shapeOfType "html"] AutoResizing
  = [shapeOfType "text"; shapeOfType "html"]
  /\ [shapeOfType "text"; shapeOfType "html"] <> []
  /\ (In AutoResizing singleShapeActions ->
      List.length [shapeOfType "text"; shapeOfType "html"] = 1%nat).
Proof.
  apply (@mounted_widget_matches_whole_selection
           [shapeOfType "text"; shapeOfType "html"] AutoResizing).
  vm_compute. tauto.
Defined.

(** X6. A single selected shape gets an empty context bar exactly when the
    table has no entry for its type. *)
Theorem single_shape_empty_bar_iff_unknown_type (s : Shape) :
  getContextBarActionsForTypes [s] = [] <-> lookup shapeMapping (type s) = None.
Proof.
  split.
  - intros H. destruct (lookup shapeMapping (type s)) as [actions|] eqn:E; [|reflexivity].
    exfalso.
    assert (Hex : exists a, In a actions).
    { revert E. unfold shapeMapping. simpl.
      repeat match goal with
             | |- (if ?c then _ else _) = _ -> _ => destruct c
             end;
        intros E; inversion E; subst; eexists; now left. }
    destruct Hex as [a Ha].
    assert (Hin : In a (resolvedActionTypes [s])).
    { apply In_resolvedActionTypes_single. unfold supportsAction. rewrite E.
      now apply includes_In. }
    unfold getContextBarActionsForTypes in H. apply map_eq_nil in H.
    rewrite H in Hin. destruct Hin.
  - intros H.
    rewrite getContextBarActionsForTypes_actionsFor by discriminate.
    unfold Spec.actionsFor. rewrite filter_none; [reflexivity|].
    intros a _. unfold Spec.applicable, Spec.assigns. cbn [forallb]. now rewrite H.
Qed.

Lemma single_shape_empty_bar_iff_unknown_type_witness :
  getContextBarActionsForTypes [shapeOfType "image"] = [].
Proof.
  apply (proj2 (single_shape_empty_bar_iff_unknown_type (shapeOfType "image"))).
  reflexivity.
Defined.

Lemma lookup_In (m : list (ShapeType * list ContextBarActionType)) (t : ShapeType)
  (actions : list ContextBarActionType) :
  lookup m t = Some actions -> In (t, actions) m.
Proof.
  induction m as [|[k v] m IH]; simpl; [discriminate|].
  destruct (String.eqb k t) eqn:E.
  - apply String.eqb_eq in E. intros H. inversion H. subst. now left.
  - intros H. right. now apply IH.
Qed.

Lemma In_lookup (m : list (ShapeType * list ContextBarActionType)) (t : ShapeType)
  (actions : list ContextBarActionType) :
  NoDup (map fst m) -> In (t, actions) m -> lookup m t = Some actions.
Proof.
  induction m as [|[k v] m IH]; simpl; [tauto|].
  intros Hnd Hin. inversion Hnd as [|? ? Hk Hnd']; subst.
  destruct Hin as [E | Hin].
  - inversion E. subst. now rewrite String.eqb_refl.
  - destruct (String.eqb k t) eqn:E; [|now apply IH].
    apply String.eqb_eq in E. subst k. exfalso. apply Hk.
    change t with (fst (t, actions)). now apply in_map.
Qed.

Lemma shapeMapping_keys_NoDup : NoDup (map fst shapeMapping).
Proof.
  unfold shapeMapping. simpl.
  repeat (constructor; [simpl; intuition discriminate|]). constructor.
Qed.

(** X7. [noStrokeShapes] lists exactly the shape types that are offered the
    colour input and are not offered the fill toggle. *)
Theorem noStrokeShapes_have_swatch_without_fill_toggle (t : ShapeType) :
  In t noStrokeShapes
  <-> In Swatch (getContextBarActionTypes t) /\ ~ In NoFill (getContextBarActionTypes t).
Proof.
  unfold noStrokeShapes. rewrite in_map_iff, getContextBarActionTypes_lookup. split.
  - intros [[k actions] [Ek Hin]]. simpl in Ek. subst k.
    apply filter_In in Hin. destruct Hin as [Hin Hf]. simpl in Hf.
    rewrite (@In_lookup shapeMapping t actions shapeMapping_keys_NoDup Hin).
    apply andb_true_iff in Hf. destruct Hf as [Hno Hsw].
    split; [now apply includes_In|].
    intros H. apply includes_In in H. rewrite H in Hno. discriminate.
  - intros [Hsw Hno].
    destruct (lookup shapeMapping t) as [actions|] eqn:E; [|destruct Hsw].
    exists (t, actions). split; [reflexivity|].
    apply filter_In. split; [now apply lookup_In|]. simpl.
    apply andb_true_iff. split; [|now apply includes_In].
    apply negb_true_iff, not_true_is_false. intros H. now apply Hno, includes_In.
Qed.

Lemma noStrokeShapes_have_swatch_without_fill_toggle_witness :
  In Swatch (getContextBarActionTypes "pencil")
  /\ ~ In NoFill (getContextBarActionTypes "pencil").
Proof.
  apply (proj1 (noStrokeShapes_have_swatch_without_fill_toggle "pencil")).
  simpl. tauto.
Defined.

(** * Further properties of the widgets *)

Lemma resolved_filter_all (selected : list Shape) (a : ContextBarActionType) :
  In a (resolvedActionTypes selected) ->
  filterShapeByAction selected a = selected /\ selected <> [].
Proof.
  intros H. destruct (resolved_action_supported _ _ H) as [Hne Hall].
  split; [now apply filter_all | assumption].
Qed.

Lemma resolved_single (selected : list Shape) (a : ContextBarActionType) :
  In a (resolvedActionTypes selected) -> In a singleShapeActions ->
  exists s, selected = [s].
Proof.
  intros H Hsingle. destruct selected as [|s [|s' rest]].
  - destruct H.
  - now exists s.
  - exfalso. apply In_resolvedActionTypes in H; [|discriminate].
    apply applicable_many in H; [tauto | simpl; lia].
Qed.

(** A widget that the resolver returns renders. *)
Lemma resolved_renders (selected : list Shape) (a : ContextBarActionType) :
  In a (resolvedActionTypes selected) -> renders a selected = true.
Proof.
  intros H. destruct (resolved_filter_all _ _ H) as [E Hne].
  destruct selected as [|s rest]; [congruence|].
  destruct a; try reflexivity; unfold renders.
  - unfold SwatchAction_value. now rewrite E.
  - unfold ScaleLevelAction_scaleLevel. cbv zeta. rewrite E.
    now destruct (1 <? _)%nat.
  - unfold YoutubeLinkAction_shape. now rewrite E.
  - now rewrite E.
Qed.

(** X9. Every widget that the resolver returns for a selection renders on
    it without reading a property of [undefined]: the colour input shows the
    colour of the first selected shape, the scale-level select has a value,
    and the link input shows the link of the one selected shape. *)
Theorem mounted_widgets_read_a_shape (url : Shape -> string) (selected : list Shape) :
  (forall a, In a (resolvedActionTypes selected) -> renders a selected = true)
  /\ (In Swatch (resolvedActionTypes selected) ->
      exists s, firstShape selected = Some s
                /\ SwatchAction_value selected = Some (shownColor s))
  /\ (In ScaleLevel (resolvedActionTypes selected) ->
      exists level, ScaleLevelAction_scaleLevel selected = Some level)
  /\ (In YoutubeLink (resolvedActionTypes selected) ->
      exists s, selected = [s]
                /\ YoutubeLinkAction_value url selected = Some (url s)).
Proof.
  split; [|split; [|split]].
  - intros a H. now apply resolved_renders.
  - intros H. destruct (resolved_filter_all _ _ H) as [E Hne].
    unfold SwatchAction_value. rewrite E.
    destruct selected as [|s rest]; [congruence|]. now exists s.
  - intros H. destruct (resolved_filter_all _ _ H) as [E Hne].
    unfold ScaleLevelAction_scaleLevel. cbv zeta. rewrite E.
    destruct selected as [|s rest]; [congruence|].
    destruct (1 <? _)%nat; eexists; reflexivity.
  - intros H. destruct (resolved_single _ H) as [s ->]; [simpl; tauto|].
    exists s. split; [reflexivity|].
    destruct (resolved_filter_all _ _ H) as [E _].
    unfold YoutubeLinkAction_value, YoutubeLinkAction_shape. now rewrite E.
Qed.

Lemma mounted_widgets_read_a_shape_witness :
  exists s, [shapeOfType "youtube"] = [s]
            /\ YoutubeLinkAction_value id [shapeOfType "youtube"] = Some (id s).
Proof.
  apply (proj2 (proj2 (proj2 (mounted_widgets_read_a_shape id [shapeOfType "youtube"])))).
  vm_compute. tauto.
Defined.

Lemma every_eqb_true_iff (prop : Shape -> string) (c : string) (shapes : list Shape) :
  Js.every (fun s => String.eqb (prop s) c) shapes = true
  <-> forall s, In s shapes -> prop s = c.
Proof.
  unfold Js.every. rewrite forallb_forall.
  split; intros H s Hs; apply String.eqb_eq; now apply H.
Qed.

Lemma every_eqb_false_iff (prop : Shape -> string) (c : string) (shapes : list Shape) :
  Js.every (fun s => String.eqb (prop s) c) shapes = false
  <-> exists s, In s shapes /\ prop s <> c.
Proof.
  unfold Js.every. induction shapes as [|x shapes IH]; simpl.
  - split; [discriminate | intros [s [[] _]]].
  - rewrite andb_false_iff, IH. split.
    + intros [H | [s [Hs Hne]]].
      * exists x. split; [now left | now apply String.eqb_neq].
      * exists s. split; [now right | assumption].
    + intros [s [[<- | Hs] Hne]].
      * left. now apply String.eqb_neq.
      * right. now exists s.
Qed.

(** X10. The stroke-type widget shows ['dashed'] exactly when every matching
    shape is dashed (also when none matches), ['line'] exactly when there is
    a matching shape and all are lines, and ['mixed'] exactly when some
    matching shape is not dashed and some is not a line. *)
Theorem stroke_type_value_cases (selected : list Shape) :
  (StrokeTypeAction_value selected = "dashed"
   <-> forall s, In s (filterShapeByAction selected StrokeType) -> strokeType s = "dashed")
  /\ (StrokeTypeAction_value selected = "line"
      <-> filterShapeByAction selected StrokeType <> []
          /\ forall s, In s (filterShapeByAction selected StrokeType) ->
                       strokeType s = "line")
  /\ (StrokeTypeAction_value selected = "mixed"
      <-> (exists s, In s (filterShapeByAction selected StrokeType)
                     /\ strokeType s <> "dashed")
          /\ (exists s, In s (filterShapeByAction selected StrokeType)
                        /\ strokeType s <> "line")).
Proof.
  unfold StrokeTypeAction_value. cbv zeta.
  set (shapes := filterShapeByAction selected StrokeType).
  destruct (Js.every (fun s => String.eqb (strokeType s) "dashed") shapes) eqn:Ed;
    [|destruct (Js.every (fun s => String.eqb (strokeType s) "line") shapes) eqn:El].
  - pose proof (proj1 (every_eqb_true_iff _ _ _) Ed) as Hd.
    split; [|split].
    + split; [intros _; exact Hd | reflexivity].
    + split; [discriminate|].
      intros [Hne Hl]. destruct shapes as [|s rest]; [congruence|].
      specialize (Hd s (or_introl eq_refl)). specialize (Hl s (or_introl eq_refl)).
      congruence.
    + split; [discriminate|].
      intros [[s [Hs Hnd]] _]. exfalso. now apply Hnd, Hd.
  - pose proof (proj1 (every_eqb_false_iff _ _ _) Ed) as [s [Hs Hnd]].
    pose proof (proj1 (every_eqb_true_iff _ _ _) El) as Hl.
    split; [|split].
    + split; [discriminate | intros Hd; exfalso; now apply Hnd, Hd].
    + split; [intros _ | reflexivity].
      split; [intros E; rewrite E in Hs; destruct Hs | assumption].
    + split; [discriminate | intros [_ [x [Hx Hnl]]]; exfalso; now apply Hnl, Hl].
  - pose proof (proj1 (every_eqb_false_iff _ _ _) Ed) as [s [Hs Hnd]].
    pose proof (proj1 (every_eqb_false_iff _ _ _) El) as [x [Hx Hnl]].
    split; [|split].
    + split; [discriminate | intros Hd; exfalso; now apply Hnd, Hd].
    + split; [discriminate | intros [_ Hl]; exfalso; now apply Hnl, Hl].
    + split; [intros _ | reflexivity]. split; [now exists s | now exists x].
Qed.

Lemma stroke_type_value_cases_witness :
  StrokeTypeAction_value [label] = "dashed"
  /\ StrokeTypeAction_value [redBox; blueBox] = "line".
Proof.
  split.
  - apply (proj2 (proj1 (stroke_type_value_cases [label]))).
    intros s Hs. destruct Hs.
  - apply (proj2 (proj1 (proj2 (stroke_type_value_cases [redBox; blueBox])))).
    split; [discriminate|]. intros s [<- | [<- | []]]; reflexivity.
Defined.

Lemma fold_add_same (c : string) (xs : list string) :
  (forall x, In x xs -> x = c) -> fold_left (Js.JSet.add String.eqb) xs [c] = [c].
Proof.
  induction xs as [|x xs IH]; intros H; simpl; [reflexivity|].
  rewrite (H x (or_introl eq_refl)).
  unfold Js.JSet.add at 2. simpl. rewrite String.eqb_refl. simpl.
  apply IH. intros y Hy. apply H. now right.
Qed.

(** X11. When the matching shapes all have the scale level of the first of
    them, the scale-level select shows that level. *)
Theorem scale_level_of_agreeing_shapes (selected : list Shape) (s : Shape)
  (rest : list Shape) :
  filterShapeByAction selected ScaleLevel = s :: rest ->
  (forall x, In x rest -> scaleLevel x = scaleLevel s) ->
  ScaleLevelAction_scaleLevel selected = Some (scaleLevel s).
Proof.
  intros E Hsame. unfold ScaleLevelAction_scaleLevel. cbv zeta. rewrite E.
  unfold Js.JSet.of_array. cbn [map fold_left].
  change (Js.JSet.add String.eqb [] (scaleLevel s)) with [scaleLevel s].
  rewrite fold_add_same; [reflexivity|].
  intros x Hx. apply in_map_iff in Hx. destruct Hx as [y [<- Hy]]. now apply Hsame.
Qed.

Lemma scale_level_of_agreeing_shapes_witness :
  ScaleLevelAction_scaleLevel [label; redBox; shapeOfType "html"] = Some "md".
Proof.
  apply (@scale_level_of_agreeing_shapes [label; redBox; shapeOfType "html"]
           label [shapeOfType "html"]).
  - reflexivity.
  - intros x [<- | []]. reflexivity.
Defined.

Lemma every_const (p : Shape -> bool) (b : bool) (shapes : list Shape) :
  shapes <> [] -> (forall s, In s shapes -> p s = b) -> Js.every p shapes = b.
Proof.
  intros Hne H. destruct b.
  - now apply forallb_forall.
  - destruct shapes as [|s rest]; [congruence|].
    unfold Js.every. simpl. now rewrite (H s (or_introl eq_refl)).
Qed.

Lemma written_to_each (f : Shape -> list Call) (w : Written) (shapes : list Shape)
  (s : Shape) :
  (forall x, writtenValues (f x) = [(x, w)]) ->
  In s shapes -> In (s, w) (writtenValues (forEachShape shapes f)).
Proof.
  intros Hf Hs.
  rewrite (@forEachShape_writtenValues f (fun _ => true) w shapes) by (intros x; apply Hf).
  rewrite filter_all by reflexivity. now apply (in_map (fun x => (x, w))).
Qed.

(** X12. A widget shows again what its handler wrote.  Let the handler of
    the view-mode widget, of the bold toggle or of the arrow widget run on a
    selection with a matching shape, for the value [v].  If afterwards every
    matching shape holds what the handler handed to the shapes, the view-mode
    widget shows [v] (for [v] one of ['0'] and ['1']), the bold toggle shows
    [v], and the arrow widget shows the heads ['start'] and ['end'] that
    occur in [v]; writing the shown heads again writes the same
    decorations. *)
Theorem widgets_show_what_their_handlers_wrote (selected after : list Shape) :
  (forall v : string,
      v = "0" \/ v = "1" ->
      filterShapeByAction selected LogseqPortalViewMode <> [] ->
      filterShapeByAction after LogseqPortalViewMode <> [] ->
      (forall s w s',
          In (s, w) (writtenValues (LogseqPortalViewModeAction_onValueChange selected v)) ->
          In s' (filterShapeByAction after LogseqPortalViewMode) -> holds w s') ->
      LogseqPortalViewModeAction_value after = v)
  /\ (forall v : bool,
        filterShapeByAction selected TextStyle <> [] ->
        filterShapeByAction after TextStyle <> [] ->
        (forall s w s',
            In (s, w) (writtenValues (TextStyleAction_bold_onPressedChange selected v)) ->
            In s' (filterShapeByAction after TextStyle) -> holds w s') ->
        TextStyleAction_bold after = v)
  /\ (forall v : list string,
        filterShapeByAction selected ArrowMode <> [] ->
        filterShapeByAction after ArrowMode <> [] ->
        (forall s w s',
            In (s, w) (writtenValues (ArrowModeAction_onValueChange selected v)) ->
            In s' (filterShapeByAction after ArrowMode) -> holds w s') ->
        valueToDecorations (ArrowModeAction_value after) = valueToDecorations v
        /\ forall x, In x (ArrowModeAction_value after)
                     <-> (x = "start" \/ x = "end") /\ In x v).
Proof.
  split; [|split].
  - intros v Hv Hne Hafter Hall.
    destruct (filterShapeByAction selected LogseqPortalViewMode) as [|s0 rest] eqn:E;
      [congruence|].
    assert (Hw : In (s0, WroteCollapsed (if String.eqb v "1" then true else false))
                   (writtenValues (LogseqPortalViewModeAction_onValueChange selected v))).
    { unfold LogseqPortalViewModeAction_onValueChange.
      rewrite writtenValues_app, E. apply in_or_app. left.
      apply written_to_each; [reflexivity | now left]. }
    unfold LogseqPortalViewModeAction_value.
    rewrite (@every_const collapsed (if String.eqb v "1" then true else false)
               (filterShapeByAction after LogseqPortalViewMode) Hafter
               (fun s' Hs' => Hall _ _ s' Hw Hs')).
    destruct Hv as [-> | ->]; reflexivity.
  - intros v Hne Hafter Hall.
    destruct (filterShapeByAction selected TextStyle) as [|s0 rest] eqn:E; [congruence|].
    assert (Hw : In (s0, WrotePatch (Patch_fontWeight (if v then 700 else 400)%Z))
                   (writtenValues (TextStyleAction_bold_onPressedChange selected v))).
    { unfold TextStyleAction_bold_onPressedChange.
      rewrite writtenValues_app, E. apply in_or_app. left.
      apply written_to_each; [reflexivity | now left]. }
    unfold TextStyleAction_bold. apply every_const; [assumption|].
    intros s' Hs'. pose proof (Hall _ _ s' Hw Hs') as Hh. simpl in Hh.
    rewrite Hh. now destruct v.
  - intros v Hne Hafter Hall.
    destruct (filterShapeByAction selected ArrowMode) as [|s0 rest] eqn:E; [congruence|].
    assert (Hw : In (s0, WrotePatch (valueToDecorations v))
                   (writtenValues (ArrowModeAction_onValueChange selected v))).
    { unfold ArrowModeAction_onValueChange.
      rewrite writtenValues_app, E. apply in_or_app. left.
      apply written_to_each; [reflexivity | now left]. }
    unfold ArrowModeAction_value. cbv zeta.
    assert (Hs : Js.every (fun s => isArrow (decorations_start s))
                   (filterShapeByAction after ArrowMode)
                 = Js.includes String.eqb v "start").
    { apply every_const; [assumption|]. intros s' Hs'.
      pose proof (Hall _ _ s' Hw Hs') as Hh. simpl in Hh. destruct Hh as [-> _].
      now destruct (Js.includes String.eqb v "start"). }
    assert (He : Js.every (fun s => isArrow (decorations_end s))
                   (filterShapeByAction after ArrowMode)
                 = Js.includes String.eqb v "end").
    { apply every_const; [assumption|]. intros s' Hs'.
      pose proof (Hall _ _ s' Hw Hs') as Hh. simpl in Hh. destruct Hh as [_ ->].
      now destruct (Js.includes String.eqb v "end"). }
    rewrite Hs, He. split.
    + unfold valueToDecorations at 2.
      destruct (Js.includes String.eqb v "start"), (Js.includes String.eqb v "end");
        reflexivity.
    + intros x.
      assert (E' : (if Js.includes String.eqb v "start" then ["start"] else [])
                   ++ (if Js.includes String.eqb v "end" then ["end"] else [])
                   = filter (Js.includes String.eqb v) ["start"; "end"]).
      { simpl. destruct (Js.includes String.eqb v "start"),
                 (Js.includes String.eqb v "end"); reflexivity. }
      rewrite E', filter_In, (@Js_includes_In _ String.eqb String.eqb_eq). simpl.
      intuition (subst; auto).
Qed.

Lemma widgets_show_what_their_handlers_wrote_witness :
  TextStyleAction_bold [boldLabel; redBox] = true.
Proof.
  apply (proj1 (proj2 (widgets_show_what_their_handlers_wrote
                         [label; redBox] [boldLabel; redBox])) true).
  - discriminate.
  - discriminate.
  - intros s w s' Hw Hs'. vm_compute in Hw, Hs'.
    destruct Hw as [Hw | []]. destruct Hs' as [<- | []].
    inversion Hw. reflexivity.
Defined.

(** X13. Take a widget whose action the resolver returns for the selection
    of its first render and for the latest selection, the two being the same
    for the handlers that are built once.  A change made through it (for the
    colour input: one burst of inputs less than 100 ms apart) calls every
    selected shape and no other, hands the new value to each of them (the
    auto-resize toggle: to the [logseq-portal] shapes among them) and then
    flushes once. *)
Theorem mounted_handlers_walk_whole_selection (first current : list Shape) (c : Change) :
  In (actionOf c) (resolvedActionTypes first) ->
  In (actionOf c) (resolvedActionTypes current) ->
  (builtOnce c = true -> first = current) ->
  (forall events, c = ChangeSwatch events -> Debounce.burst 100 events) ->
  exists calls,
    runChange first current c = Some (calls ++ [Persist (ephemeralOf c)])
    /\ persists calls = []
    /\ (forall s, In s (touched calls) <-> In s current)
    /\ writtenValues calls = map (fun s => (s, valueOf c)) (filter (receivesValue c) current).
Proof.
  intros Hfirst H Honce Hburst. destruct (resolved_filter_all _ _ H) as [E Hne].
  assert (Hreach : reached c (filterShapeByAction current (actionOf c)) = current).
  { rewrite E. destruct c; try reflexivity.
    destruct (resolved_single _ H) as [s ->]; [simpl; tauto | reflexivity]. }
  destruct (@runChange_walks first current c) as [calls Hcalls];
    try assumption; try now apply resolved_renders.
  rewrite Hreach in Hcalls. now exists calls.
Qed.

Lemma mounted_handlers_walk_whole_selection_witness :
  exists calls,
    runChange [label] [label; shapeOfType "html"] (ChangeScaleLevel "lg")
    = Some (calls ++ [Persist (ephemeralOf (ChangeScaleLevel "lg"))])
    /\ persists calls = []
    /\ (forall s, In s (touched calls) <-> In s [label; shapeOfType "html"])
    /\ writtenValues calls
       = map (fun s => (s, valueOf (ChangeScaleLevel "lg")))
           (filter (receivesValue (ChangeScaleLevel "lg")) [label; shapeOfType "html"]).
Proof.
  apply (@mounted_handlers_walk_whole_selection [label] [label; shapeOfType "html"]
           (ChangeScaleLevel "lg")).
  - vm_compute. tauto.
  - vm_compute. tauto.
  - intros H. discriminate H.
  - intros events E. discriminate E.
Defined.

(** * The edit button *)

Lemma find_first (A : Type) (f : A -> bool) (l : list A) (x : A) :
  find f l = Some x ->
  exists before_ after_,
    l = before_ ++ x :: after_ /\ f x = true /\ forall y, In y before_ -> f y = false.
Proof.
  induction l as [|y l IH]; simpl; [discriminate|].
  destruct (f y) eqn:E.
  - intros H. inversion H. subst. exists [], l. simpl. tauto.
  - intros H. destruct (IH H) as [b [a [-> [Hx Hb]]]].
    exists (y :: b), a. simpl. split; [reflexivity | split; [assumption|]].
    intros z [<- | Hz]; [assumption | now apply Hb].
Qed.

Lemma find_none_iff (A : Type) (f : A -> bool) (l : list A) :
  find f l = None <-> forall y, In y l -> f y = false.
Proof.
  split; [apply find_none|].
  induction l as [|y l IH]; simpl; [reflexivity|]. intros H.
  rewrite (H y (or_introl eq_refl)). apply IH. intros z Hz. apply H. now right.
Qed.

(** X14. A click on the edit button always hands the first matching shape
    to [editShape] first.  It ends in an error exactly when no selected
    shape matches, or when that shape is a portal of a page (block type
    ['P']) and the host cannot list the blocks of the page or every block of
    the page has a properties order. *)
Theorem edit_click_raises_iff (api : option LogseqApi) (portal : Shape -> PortalProps)
  (selected : list Shape) :
  (exists rest,
      fst (EditAction_onClick api portal selected)
      = EditShape (firstShape (filterShapeByAction selected Edit)) :: rest)
  /\ (snd (EditAction_onClick api portal selected) = Raised
      <-> filterShapeByAction selected Edit = []
          \/ exists shape,
              firstShape (filterShapeByAction selected Edit) = Some shape
              /\ type shape = "logseq-portal"
              /\ blockType (portal shape) = "P"
              /\ forall blocks, pageBlocks api (pageId (portal shape)) = Some blocks ->
                                forall b, In b blocks -> propertiesOrder_in b = true).
Proof.
  unfold EditAction_onClick.
  destruct (filterShapeByAction selected Edit) as [|shape others] eqn:Ef.
  { simpl. split; [now exists [] | split; [now left | reflexivity]]. }
  cbn [firstShape hd_error].
  destruct (String.eqb (type shape) "logseq-portal") eqn:Et.
  2:{ split; [now exists []|]. simpl. split; [discriminate|].
      intros [E | [x [Ex [Ht _]]]]; [discriminate E|].
      inversion Ex. subst x. apply String.eqb_neq in Et. contradiction. }
  apply String.eqb_eq in Et.
  destruct (String.eqb (blockType (portal shape)) "P") eqn:Eb.
  2:{ split; [eexists; reflexivity|]. simpl. split; [discriminate|].
      intros [E | [x [Ex [_ [Hb _]]]]]; [discriminate E|].
      inversion Ex. subst x. apply String.eqb_neq in Eb. contradiction. }
  apply String.eqb_eq in Eb.
  unfold pageBlocks.
  destruct api as [a|]; [destruct (get_page_blocks_tree a) as [tree|]|].
  - destruct (find _ (tree (pageId (portal shape)))) as [b|] eqn:Efind.
    + split; [eexists; reflexivity|]. simpl. split; [discriminate|].
      intros [E | [x [Ex [_ [_ Hall]]]]]; [discriminate E|].
      inversion Ex. subst x.
      destruct (find_first _ _ Efind) as [pre [post [El [Hb _]]]].
      specialize (Hall _ eq_refl b). rewrite El in Hall.
      rewrite Hall in Hb by (apply in_or_app; right; now left). discriminate.
    + split; [eexists; reflexivity|]. simpl. split; [intros _ | reflexivity].
      right. exists shape. repeat split; try assumption.
      intros blocks E b Hb. inversion E. subst blocks.
      apply find_none_iff with (y := b) in Efind; [|assumption].
      now apply negb_false_iff in Efind.
  - split; [eexists; reflexivity|]. simpl. split; [intros _ | reflexivity].
    right. exists shape. repeat split; try assumption. discriminate.
  - split; [eexists; reflexivity|]. simpl. split; [intros _ | reflexivity].
    right. exists shape. repeat split; try assumption. discriminate.
Qed.

Lemma edit_click_raises_iff_witness :
  snd (EditAction_onClick
         (Some (mkLogseqApi
                  (Some (fun _ => [mkBlock "b1" true; mkBlock "b2" true])) true))
         (fun _ => mkPortalProps "page-1" "P")
         [shapeOfType "logseq-portal"])
  = Raised.
Proof.
  apply (proj2 (proj2 (edit_click_raises_iff
                         (Some (mkLogseqApi
                                  (Some (fun _ => [mkBlock "b1" true; mkBlock "b2" true]))
                                  true))
                         (fun _ => mkPortalProps "page-1" "P")
                         [shapeOfType "logseq-portal"]))).
  right. exists (shapeOfType "logseq-portal").
  repeat split.
  intros blocks E b Hb. vm_compute in E. inversion E. subst blocks.
  destruct Hb as [<- | [<- | []]]; reflexivity.
Defined.

Lemma find_after_prefix (A : Type) (f : A -> bool) (pre post : list A) (x : A) :
  (forall y, In y pre -> f y = false) -> f x = true ->
  find f (pre ++ x :: post) = Some x.
Proof.
  intros Hpre Hx. induction pre as [|y pre IH]; simpl.
  - now rewrite Hx.
  - rewrite (Hpre y (or_introl eq_refl)). apply IH. intros z Hz. apply Hpre. now right.
Qed.

(** X15. With a host that offers both functions, a click on the edit button
    of a page portal asks for the blocks of the page and edits the first
    block that has no properties order; for a portal of any other block type
    it edits the block named by [pageId] without asking; for a shape that is
    no portal it calls [editShape] and nothing else. *)
Theorem edit_click_edits_first_block_without_properties
  (a : LogseqApi) (tree : string -> list Block) (portal : Shape -> PortalProps)
  (selected : list Shape) (shape : Shape) :
  firstShape (filterShapeByAction selected Edit) = Some shape ->
  get_page_blocks_tree a = Some tree ->
  has_edit_block a = true ->
  (type shape = "logseq-portal" ->
   blockType (portal shape) = "P" ->
   forall pre b post,
     tree (pageId (portal shape)) = pre ++ b :: post ->
     (forall y, In y pre -> propertiesOrder_in y = true) ->
     propertiesOrder_in b = false ->
     EditAction_onClick (Some a) portal selected
     = ([EditShape (Some shape); GetPageBlocksTree (pageId (portal shape));
         EditBlock (uuid b)], Returned))
  /\ (type shape = "logseq-portal" ->
      blockType (portal shape) <> "P" ->
      EditAction_onClick (Some a) portal selected
      = ([EditShape (Some shape); EditBlock (pageId (portal shape))], Returned))
  /\ (type shape <> "logseq-portal" ->
      EditAction_onClick (Some a) portal selected = ([EditShape (Some shape)], Returned)).
Proof.
  intros Hfirst Htree Hedit. unfold EditAction_onClick. rewrite Hfirst.
  split; [|split].
  - intros Ht Hb pre b post Hblocks Hpre Hplain.
    apply String.eqb_eq in Ht, Hb. rewrite Ht, Hb, Htree, Hblocks.
    rewrite find_after_prefix.
    + unfold edit_block. now rewrite Hedit.
    + intros y Hy. now rewrite (Hpre y Hy).
    + now rewrite Hplain.
  - intros Ht Hb. apply String.eqb_eq in Ht. apply String.eqb_neq in Hb.
    rewrite Ht, Hb. unfold edit_block. now rewrite Hedit.
  - intros Ht. apply String.eqb_neq in Ht. now rewrite Ht.
Qed.

Lemma edit_click_edits_first_block_without_properties_witness :
  EditAction_onClick
    (Some (mkLogseqApi
             (Some (fun _ => [mkBlock "b1" true; mkBlock "b2" false; mkBlock "b3" false]))
             true))
    (fun _ => mkPortalProps "page-1" "P")
    [shapeOfType "logseq-portal"]
  = ([EditShape (Some (shapeOfType "logseq-portal")); GetPageBlocksTree "page-1";
      EditBlock "b2"], Returned).
Proof.
  apply (proj1 (@edit_click_edits_first_block_without_properties
                  (mkLogseqApi
                     (Some (fun _ => [mkBlock "b1" true; mkBlock "b2" false;
                                      mkBlock "b3" false]))
                     true)
                  (fun _ => [mkBlock "b1" true; mkBlock "b2" false; mkBlock "b3" false])
                  (fun _ => mkPortalProps "page-1" "P")
                  [shapeOfType "logseq-portal"]
                  (shapeOfType "logseq-portal")
                  eq_refl eq_refl eq_refl)
           eq_refl eq_refl [mkBlock "b1" true] (mkBlock "b2" false) [mkBlock "b3" false]).
  - reflexivity.
  - intros y [<- | []]. reflexivity.
  - reflexivity.
Defined.

(** * The head bar *)

Lemma prefix_iff (p s : string) :
  String.prefix p s = true <-> exists rest, s = (p ++ rest)%string.
Proof.
  revert s. induction p as [|c p IH]; intros s.
  - split; [intros _; now exists s | intros _; now destruct s].
  - destruct s as [|d s]; simpl;
      [split; [discriminate | intros [rest E]; discriminate E]|].
    destruct (Ascii.ascii_dec c d) as [<- | Hne].
    + rewrite IH. split; intros [rest E]; exists rest; [now rewrite E | now inversion E].
    + split; [discriminate | intros [rest E]; inversion E; congruence].
Qed.

(** X16. A links group renders one entry per item, in the order of the
    items, with the link, label and icon of the item.  The entry is an
    anchor that opens a new tab exactly when the link starts with [http];
    otherwise it is a link of the router. *)
Theorem links_group_renders_each_item (items : list Headbar.Item) :
  List.length (Headbar.LinksGroup items) = List.length items
  /\ forall i it,
      nth_error items i = Some it ->
      exists e,
        nth_error (Headbar.LinksGroup items) i = Some e
        /\ ((exists rest, Headbar.link it = ("http" ++ rest)%string)
            -> e = Headbar.Anchor (Headbar.link it) "_blank" (Headbar.label it)
                     (Headbar.icon it))
        /\ (~ (exists rest, Headbar.link it = ("http" ++ rest)%string)
            -> e = Headbar.RouterLink (Headbar.link it) (Headbar.label it)
                     (Headbar.icon it)).
Proof.
  unfold Headbar.LinksGroup. split; [apply length_map|].
  intros i it Hi. eexists. split; [apply map_nth_error; exact Hi|].
  destruct (String.prefix "http" (Headbar.link it)) eqn:E.
  - apply prefix_iff in E. split; [reflexivity | intros H; contradiction].
  - split; [|reflexivity]. intros H. apply prefix_iff in H. congruence.
Qed.

Lemma links_group_renders_each_item_witness :
  exists e,
    nth_error (Headbar.LinksGroup Headbar.rightLinks) 1 = Some e
    /\ ((exists rest, "https://discord.com/invite/KpN4eHY" = ("http" ++ rest)%string)
        -> e = Headbar.Anchor "https://discord.com/invite/KpN4eHY" "_blank"
                 "Community Hub" (Some "ArrowSquareOut"))
    /\ (~ (exists rest, "https://discord.com/invite/KpN4eHY" = ("http" ++ rest)%string)
        -> e = Headbar.RouterLink "https://discord.com/invite/KpN4eHY"
                 "Community Hub" (Some "ArrowSquareOut")).
Proof.
  apply (proj2 (links_group_renders_each_item Headbar.rightLinks) 1%nat
           (Headbar.mkItem "https://discord.com/invite/KpN4eHY" "Community Hub"
              (Some "ArrowSquareOut"))).
  reflexivity.
Defined.

Example headbar_groups :
  map Headbar.isAnchor (fst Headbar.Headbar) = [false; false]
  /\ map Headbar.isAnchor (snd Headbar.Headbar) = [true; true; true].
Proof. split; reflexivity. Qed.
